(** * Melinjo: a shallow embedding of the game simulation

    The repository holds two variants of one browser game: [src/game.js]
    (keyboard and touch controls) and a second source file (keyboard only,
    module [Part000] below).  This file embeds the simulation part of both:
    the jump handler, the per-frame updates, the level generators, the
    collision checks, the frame loop with its Active/Ended flag and the
    texts of the end screen.

    Numbers.  A JavaScript number is modelled by [num]: an exact rational,
    one of the two infinities, or NaN.  Arithmetic on finite values is exact
    (rounding of IEEE doubles is not modelled, and there is one zero, which
    behaves as +0); the non-finite cases follow IEEE 754, so that a division
    by zero yields an infinity or NaN as it does in the source, and every
    comparison with NaN is false.  Where a double would round, the model
    and the program differ in the last digits.  The theorems on what
    spans many arithmetic steps (the level layout, the scrolling over a
    run, the elapsed time of a run) are therefore stated as orderings and
    as bounds with integer end points, which rounding to nearest keeps.

    Globals.  The top-level [let] variables of the program are the fields of
    the record [state]; every function that mutates them becomes a function
    from [state] to [state].  [Math.random] is a stream of draws and a
    cursor; the host's frame timestamps are rational inputs. *)

From Stdlib Require Import QArith Qround Qabs Qminmax Lqa Lia ZArith Bool List String.
Import ListNotations.

Open Scope Q_scope.

(** ** JavaScript numbers *)

Inductive num : Type :=
| Fin (q : Q)
| PInf
| NInf
| NaN.

Coercion Fin : Q >-> num.

Definition Qltb (x y : Q) : bool :=
  (Qnum x * QDen y <? Qnum y * QDen x)%Z.

Definition Qsgn_pos (x : Q) : bool := Qltb 0 x.

Definition num_opp (a : num) : num :=
  match a with
  | Fin x => Fin (- x)
  | PInf => NInf
  | NInf => PInf
  | NaN => NaN
  end.

Definition num_add (a b : num) : num :=
  match a, b with
  | Fin x, Fin y => Fin (x + y)
  | NaN, _ | _, NaN => NaN
  | PInf, NInf | NInf, PInf => NaN
  | PInf, _ | _, PInf => PInf
  | NInf, _ | _, NInf => NInf
  end.

Definition num_sub (a b : num) : num := num_add a (num_opp b).

(** [0 * Infinity] is NaN; otherwise the sign of the product decides. *)
Definition num_scale_inf (x : Q) (pos : bool) : num :=
  if Qeq_bool x 0 then NaN
  else if Bool.eqb (Qsgn_pos x) pos then PInf else NInf.

Definition num_mul (a b : num) : num :=
  match a, b with
  | Fin x, Fin y => Fin (x * y)
  | NaN, _ | _, NaN => NaN
  | Fin x, PInf | PInf, Fin x => num_scale_inf x true
  | Fin x, NInf | NInf, Fin x => num_scale_inf x false
  | PInf, PInf | NInf, NInf => PInf
  | PInf, NInf | NInf, PInf => NInf
  end.

(** Division: a finite value over zero is an infinity of the dividend's sign
    ([0 / 0] is NaN); a finite value over an infinity is zero. *)
Definition num_div (a b : num) : num :=
  match a, b with
  | Fin x, Fin y =>
      if Qeq_bool y 0
      then (if Qeq_bool x 0 then NaN else if Qsgn_pos x then PInf else NInf)
      else Fin (x / y)
  | NaN, _ | _, NaN => NaN
  | Fin _, PInf | Fin _, NInf => Fin 0
  | PInf, Fin y => if Qltb y 0 then NInf else PInf
  | NInf, Fin y => if Qltb y 0 then PInf else NInf
  | PInf, PInf | PInf, NInf | NInf, PInf | NInf, NInf => NaN
  end.

Definition num_ltb (a b : num) : bool :=
  match a, b with
  | Fin x, Fin y => Qltb x y
  | NaN, _ | _, NaN => false
  | NInf, NInf | PInf, _ | _, NInf => false
  | NInf, _ | _, PInf => true
  end.

Definition num_leb (a b : num) : bool :=
  match a, b with
  | Fin x, Fin y => Qle_bool x y
  | NaN, _ | _, NaN => false
  | NInf, _ | _, PInf => true
  | PInf, _ | _, NInf => false
  end.

Definition num_gtb (a b : num) : bool := num_ltb b a.
Definition num_geb (a b : num) : bool := num_leb b a.

(** [===] on numbers: NaN differs from everything, itself included. *)
Definition num_eqb (a b : num) : bool :=
  match a, b with
  | Fin x, Fin y => Qeq_bool x y
  | PInf, PInf | NInf, NInf => true
  | _, _ => false
  end.

(** [Math.floor]. *)
Definition num_floor (a : num) : num :=
  match a with
  | Fin x => Fin (inject_Z (Qfloor x))
  | other => other
  end.

Definition num_of_nat (n : nat) : num := Fin (inject_Z (Z.of_nat n)).

(** The absolute value, used to speak of the magnitude of an impulse. *)
Definition num_abs (a : num) : num :=
  match a with
  | Fin x => Fin (Qabs x)
  | PInf | NInf => PInf
  | NaN => NaN
  end.

Declare Scope num_scope.
Delimit Scope num_scope with num.
Bind Scope num_scope with num.
Infix "+" := num_add : num_scope.
Infix "-" := num_sub : num_scope.
Infix "*" := num_mul : num_scope.
Infix "/" := num_div : num_scope.
Infix "<?" := num_ltb (at level 70, no associativity) : num_scope.
Infix ">?" := num_gtb (at level 70, no associativity) : num_scope.
Infix ">=?" := num_geb (at level 70, no associativity) : num_scope.
Infix "<=?" := num_leb (at level 70, no associativity) : num_scope.
Infix "===" := num_eqb (at level 70, no associativity) : num_scope.

Definition is_finite (a : num) : Prop := exists q : Q, a = Fin q.

(** ** Game constants (lines 1-12 of both variants) *)

Definition CANVAS_WIDTH : Q := 800.
Definition CANVAS_HEIGHT : Q := 400.
Definition GROUND_HEIGHT : Q := 50.
Definition GRAVITY : Q := 0.6.
Definition JUMP_FORCE : Q := -15.
Definition FLYING_FORCE_MULTIPLIER : Q := 0.5.
Definition ENERGY_MAX : Q := 100.
Definition ENERGY_JUMP_COST : Q := 20.
Definition ENERGY_REFILL_RATE : Q := 0.3.
Definition GAME_DURATION : Q := 30.
Definition SCROLL_SPEED : Q := 5.

(** ** Data model *)

(** The object held by the global [player].  [jumpCount] is only ever
    assigned the literals 0 and 1 and incremented, so it is a natural
    number. *)
Record Player : Type := mkPlayer {
  px : num;
  py : num;
  pwidth : num;
  pheight : num;
  velocityY : num;
  isJumping : bool;
  jumpCount : nat
}.

(** An obstacle is created without a [passed] property; the program only
    reads it under [!], where an absent property and [false] agree, so
    [passed = false] stands for both. *)
Record obstacle : Type := mkObstacle {
  ox : num;
  oy : num;
  owidth : num;
  oheight : num;
  otype : num;
  passed : bool
}.

Record melinjo : Type := mkMelinjo {
  mx : num;
  my : num;
  mwidth : num;
  mheight : num;
  collected : bool
}.

Record state : Type := mkState {
  player : Player;
  obstacles : list obstacle;
  melinjos : list melinjo;
  gameTime : num;
  gameActive : bool;
  lastTimestamp : num;
  energy : num
}.

(** Field assignments. *)
Definition set_py (v : num) (p : Player) : Player :=
  mkPlayer (px p) v (pwidth p) (pheight p) (velocityY p) (isJumping p) (jumpCount p).
Definition set_velocityY (v : num) (p : Player) : Player :=
  mkPlayer (px p) (py p) (pwidth p) (pheight p) v (isJumping p) (jumpCount p).
Definition set_isJumping (b : bool) (p : Player) : Player :=
  mkPlayer (px p) (py p) (pwidth p) (pheight p) (velocityY p) b (jumpCount p).
Definition set_jumpCount (n : nat) (p : Player) : Player :=
  mkPlayer (px p) (py p) (pwidth p) (pheight p) (velocityY p) (isJumping p) n.

Definition set_ox (v : num) (o : obstacle) : obstacle :=
  mkObstacle v (oy o) (owidth o) (oheight o) (otype o) (passed o).
Definition set_passed (b : bool) (o : obstacle) : obstacle :=
  mkObstacle (ox o) (oy o) (owidth o) (oheight o) (otype o) b.
Definition set_mx (v : num) (m : melinjo) : melinjo :=
  mkMelinjo v (my m) (mwidth m) (mheight m) (collected m).
Definition set_collected (b : bool) (m : melinjo) : melinjo :=
  mkMelinjo (mx m) (my m) (mwidth m) (mheight m) b.

Definition set_player (p : Player) (s : state) : state :=
  mkState p (obstacles s) (melinjos s) (gameTime s) (gameActive s)
          (lastTimestamp s) (energy s).
Definition set_obstacles (l : list obstacle) (s : state) : state :=
  mkState (player s) l (melinjos s) (gameTime s) (gameActive s)
          (lastTimestamp s) (energy s).
Definition set_melinjos (l : list melinjo) (s : state) : state :=
  mkState (player s) (obstacles s) l (gameTime s) (gameActive s)
          (lastTimestamp s) (energy s).
Definition set_gameTime (v : num) (s : state) : state :=
  mkState (player s) (obstacles s) (melinjos s) v (gameActive s)
          (lastTimestamp s) (energy s).
Definition set_gameActive (b : bool) (s : state) : state :=
  mkState (player s) (obstacles s) (melinjos s) (gameTime s) b
          (lastTimestamp s) (energy s).
Definition set_lastTimestamp (v : num) (s : state) : state :=
  mkState (player s) (obstacles s) (melinjos s) (gameTime s) (gameActive s)
          v (energy s).
Definition set_energy (v : num) (s : state) : state :=
  mkState (player s) (obstacles s) (melinjos s) (gameTime s) (gameActive s)
          (lastTimestamp s) v.



(** What a frame draws: the entities inside the viewport, the player, and
    the texts of the end screen (none while the game is active). *)
Record picture : Type := mkPicture {
  pic_obstacles : list obstacle;
  pic_melinjos : list melinjo;
  pic_player : Player;
  pic_overlay : list string
}.

(** [Math.random]: the stream of draws, read at a cursor. *)
Definition random_source : Type := nat -> Q.

Definition draws_in_unit (rnd : random_source) : Prop :=
  forall i : nat, 0 <= rnd i /\ rnd i < 1.

(** Input events of the host.  Other keys are ignored by every listener. *)
Inductive key : Type := Space | OtherKey.

Inductive input : Type :=
| KeyDown (code : key)
| TouchCanvas
| TouchButton
| AnimationFrame (timestamp : Q).

Open Scope num_scope.

(** ** The program of [src/game.js] *)

Module GameJs.

(** [handleJump], lines 193-211. *)
Definition handleJump (s : state) : state :=
  let p := player s in
  if negb (isJumping p) then
    if energy s >=? ENERGY_JUMP_COST then
      let p := set_velocityY JUMP_FORCE p in
      let p := set_isJumping true p in
      let p := set_jumpCount 1 p in
      set_energy (energy s - ENERGY_JUMP_COST) (set_player p s)
    else s
  else
    if energy s >=? ENERGY_JUMP_COST then
      let flyingForce :=
        JUMP_FORCE * FLYING_FORCE_MULTIPLIER / num_of_nat (jumpCount p) in
      let p := set_velocityY flyingForce p in
      let p := set_jumpCount (S (jumpCount p)) p in
      set_energy (energy s - ENERGY_JUMP_COST) (set_player p s)
    else s.

(** The listeners of [setupControls] (lines 173-190) and of the touch button
    (lines 105-110).  The restart listeners installed by [drawGameOver]
    reload the page, which starts a new run from [onload]; they change no
    field of this run and are not part of the step function. *)
Definition onKeyDown (code : key) (s : state) : state :=
  match code with
  | Space => if gameActive s then handleJump s else s
  | OtherKey => s
  end.

Definition onCanvasTouch (s : state) : state :=
  if gameActive s then handleJump s else s.

Definition onButtonTouch (s : state) : state :=
  if gameActive s then handleJump s else s.

(** [updatePlayer], lines 214-229. *)
Definition updatePlayer (s : state) : state :=
  let p := player s in
  let p := set_velocityY (velocityY p + GRAVITY) p in
  let p := set_py (py p + velocityY p) p in
  let groundY := CANVAS_HEIGHT - GROUND_HEIGHT - pheight p in
  let p :=
    if py p >=? groundY then
      set_jumpCount 0 (set_isJumping false (set_velocityY 0 (set_py groundY p)))
    else p in
  set_player p s.

(** The generators, lines 232-283.  [k] is the cursor into the stream of
    random draws; [fuel] bounds the number of loop tests. *)
Fixpoint generateObstacles_loop (fuel : nat) (rnd : random_source) (k : nat)
    (totalDistance position : num) (acc : list obstacle)
  : option (list obstacle * nat) :=
  match fuel with
  | O => None
  | S fuel' =>
      if position <? totalDistance + 800 then
        let type := num_floor (rnd k * 2) in
        let width :=
          if type === 0 then 30 + rnd (k + 1)%nat * 20
          else 60 + rnd (k + 1)%nat * 40 in
        let '(height, k') :=
          if type === 0 then (20 + rnd (k + 2)%nat * 30, (k + 3)%nat)
          else (Fin 20, (k + 2)%nat) in
        let o := mkObstacle position (CANVAS_HEIGHT - GROUND_HEIGHT - height)
                            width height type false in
        generateObstacles_loop fuel' rnd (S k') totalDistance
                               (position + (300 + rnd k' * 300)) (acc ++ [o])
      else Some (acc, k)
  end.

Definition generateObstacles (fuel : nat) (rnd : random_source) (k : nat)
    (s : state) : option (state * nat) :=
  let totalDistance := SCROLL_SPEED * GAME_DURATION * 60 in
  match generateObstacles_loop fuel rnd k totalDistance 800 [] with
  | Some (l, k') => Some (set_obstacles l s, k')
  | None => None
  end.

Fixpoint generateMelinjos_loop (fuel : nat) (rnd : random_source) (k : nat)
    (totalDistance position : num) (acc : list melinjo)
  : option (list melinjo * nat) :=
  match fuel with
  | O => None
  | S fuel' =>
      if position <? totalDistance + 800 then
        let height := 100 + rnd k * 150 in
        let m := mkMelinjo position (CANVAS_HEIGHT - GROUND_HEIGHT - height)
                           20 20 false in
        generateMelinjos_loop fuel' rnd (k + 2)%nat totalDistance
                              (position + (200 + rnd (k + 1)%nat * 400))
                              (acc ++ [m])
      else Some (acc, k)
  end.

Definition generateMelinjos (fuel : nat) (rnd : random_source) (k : nat)
    (s : state) : option (state * nat) :=
  let totalDistance := SCROLL_SPEED * GAME_DURATION * 60 in
  match generateMelinjos_loop fuel rnd k totalDistance 800 [] with
  | Some (l, k') => Some (set_melinjos l s, k')
  | None => None
  end.

(** The globals as declared (lines 17-22) and [window.onload] (lines 29-76). *)
Definition onload (fuel : nat) (rnd : random_source) : option state :=
  let p := mkPlayer 100 (CANVAS_HEIGHT - GROUND_HEIGHT - 40) 50 40 0 false 0 in
  let s := mkState p [] [] 0 true 0 ENERGY_MAX in
  match generateObstacles fuel rnd 0 s with
  | Some (s, k) =>
      match generateMelinjos fuel rnd k s with
      | Some (s, _) => Some s
      | None => None
      end
  | None => None
  end.

(** [updateObstacles] and [updateMelinjos], lines 286-297. *)
Definition updateObstacles (s : state) : state :=
  set_obstacles (map (fun o => set_ox (ox o - SCROLL_SPEED) o) (obstacles s)) s.

Definition updateMelinjos (s : state) : state :=
  set_melinjos (map (fun m => set_mx (mx m - SCROLL_SPEED) m) (melinjos s)) s.

(** [updateEnergy], lines 300-311 (the width of the energy bar, a copy of
    [energy] written to the page, is left out). *)
Definition updateEnergy (s : state) : state :=
  if energy s <? ENERGY_MAX then
    let s := set_energy (energy s + ENERGY_REFILL_RATE) s in
    if energy s >? ENERGY_MAX then set_energy ENERGY_MAX s else s
  else s.

(** [checkCollisions], lines 314-355.  The obstacle loop returns at the
    first hit: the obstacles after it are left as they were. *)
Fixpoint checkObstacles (p : Player) (l : list obstacle)
  : list obstacle * bool :=
  match l with
  | [] => ([], false)
  | o :: rest =>
      if negb (passed o)
         && (px p <? ox o + owidth o)
         && (px p + pwidth p >? ox o)
         && (py p <? oy o + oheight o)
         && (py p + pheight p >? oy o)
      then (o :: rest, true)
      else
        let o :=
          if (ox o + owidth o <? px p) && negb (passed o)
          then set_passed true o else o in
        let '(rest, hit) := checkObstacles p rest in
        (o :: rest, hit)
  end.

Fixpoint checkMelinjos (p : Player) (l : list melinjo) (e : num)
  : list melinjo * num :=
  match l with
  | [] => ([], e)
  | m :: rest =>
      if negb (collected m)
         && (px p <? mx m + mwidth m)
         && (px p + pwidth p >? mx m)
         && (py p <? my m + mheight m)
         && (py p + pheight p >? my m)
      then
        let m := set_collected true m in
        let e := e + 30 in
        let e := if e >? ENERGY_MAX then Fin ENERGY_MAX else e in
        let '(rest, e) := checkMelinjos p rest e in
        (m :: rest, e)
      else
        let '(rest, e) := checkMelinjos p rest e in
        (m :: rest, e)
  end.

Definition checkCollisions (s : state) : state :=
  let p := player s in
  let '(obs, hit) := checkObstacles p (obstacles s) in
  let s := set_obstacles obs s in
  if hit then set_gameActive false s
  else
    let '(mels, e) := checkMelinjos p (melinjos s) (energy s) in
    let s := set_energy e (set_melinjos mels s) in
    if py p >? CANVAS_HEIGHT then set_gameActive false s else s.

(** Drawing, lines 386-495: which entities are drawn, and the texts of the
    end screen. *)
Definition drawObstacles (s : state) : list obstacle :=
  filter (fun o => (ox o + owidth o >? 0) && (ox o <? CANVAS_WIDTH))
         (obstacles s).

Definition drawMelinjos (s : state) : list melinjo :=
  filter (fun m => negb (collected m) && (mx m + mwidth m >? 0)
                   && (mx m <? CANVAS_WIDTH))
         (melinjos s).

Definition drawGameOver (s : state) : list string :=
  [ (if gameTime s >=? GAME_DURATION then "Level Complete!" else "Game Over")%string;
    "Tap to Restart"%string ].

(** [gameLoop], lines 128-170: the next state and what is drawn. *)
Definition render (s : state) : picture :=
  mkPicture (drawObstacles s) (drawMelinjos s) (player s)
            (if negb (gameActive s) then drawGameOver s else []).

Definition gameLoop (timestamp : Q) (s : state) : state * picture :=
  let deltaTime := timestamp - lastTimestamp s in
  let s := set_lastTimestamp timestamp s in
  let s :=
    if gameActive s then
      let s := set_gameTime (gameTime s + deltaTime / 1000) s in
      let s :=
        if gameTime s >=? GAME_DURATION then set_gameActive false s else s in
      let s := updatePlayer s in
      let s := updateObstacles s in
      let s := updateMelinjos s in
      let s := updateEnergy s in
      checkCollisions s
    else s in
  (s, render s).

(** Names for parts of the functions above, used to state their
    properties: the elapsed time computed at line 130; the state of an
    active frame after line 143 (clock advanced, time limit tested) and the
    updates of lines 146-152 that follow; the ground line of line 222; the
    impulse of line 205 at jump count [n]; the loop bound of both generators
    is [totalDistance + 800]; the test of the pickup loop and the number of
    pickups one call of [checkCollisions] collects. *)
Definition deltaTime (timestamp : Q) (s : state) : num :=
  timestamp - lastTimestamp s.

Definition frame_clock (timestamp : Q) (s : state) : state :=
  let deltaTime := timestamp - lastTimestamp s in
  let s := set_lastTimestamp timestamp s in
  let s := set_gameTime (gameTime s + deltaTime / 1000) s in
  if gameTime s >=? GAME_DURATION then set_gameActive false s else s.

Definition frame_updates (s : state) : state :=
  checkCollisions
    (updateEnergy (updateMelinjos (updateObstacles (updatePlayer s)))).

Definition groundY (p : Player) : num :=
  CANVAS_HEIGHT - GROUND_HEIGHT - pheight p.

Definition flyingForce (n : nat) : num :=
  JUMP_FORCE * FLYING_FORCE_MULTIPLIER / num_of_nat n.

Definition totalDistance : num := SCROLL_SPEED * GAME_DURATION * 60.

Definition melinjo_hit (p : Player) (m : melinjo) : bool :=
  negb (collected m)
  && (px p <? mx m + mwidth m)
  && (px p + pwidth p >? mx m)
  && (py p <? my m + mheight m)
  && (py p + pheight p >? my m).

Definition collected_now (s : state) : nat :=
  if snd (checkObstacles (player s) (obstacles s)) then 0%nat
  else List.length (filter (melinjo_hit (player s)) (melinjos s)).

(** One input event, delivered to the listeners registered for it. *)
Definition step (i : input) (s : state) : state :=
  match i with
  | KeyDown code => onKeyDown code s
  | TouchCanvas => onCanvasTouch s
  | TouchButton => onButtonTouch s
  | AnimationFrame timestamp => fst (gameLoop timestamp s)
  end.

Definition run (l : list input) (s : state) : state :=
  fold_left (fun s i => step i s) l s.

(** The states of a run: [onload] with some stream of random draws in
    [0, 1), then any sequence of input events. *)
Inductive reachable : state -> Prop :=
| reachable_onload fuel rnd s :
    draws_in_unit rnd -> onload fuel rnd = Some s -> reachable s
| reachable_step i s :
    reachable s -> reachable (step i s).

End GameJs.

(** ** The program of the second variant (keyboard only) *)

Module Part000.

(** The listener of [setupControls], lines 103-126: the jump logic is
    written inside the [keydown] listener.  This variant registers no touch
    listener. *)
Definition onKeyDown (code : key) (s : state) : state :=
  match code with
  | Space =>
      if gameActive s then
        let p := player s in
        if negb (isJumping p) then
          if energy s >=? ENERGY_JUMP_COST then
            let p := set_velocityY JUMP_FORCE p in
            let p := set_isJumping true p in
            let p := set_jumpCount 1 p in
            set_energy (energy s - ENERGY_JUMP_COST) (set_player p s)
          else s
        else
          if energy s >=? ENERGY_JUMP_COST then
            let flyingForce :=
              JUMP_FORCE * FLYING_FORCE_MULTIPLIER / num_of_nat (jumpCount p) in
            let p := set_velocityY flyingForce p in
            let p := set_jumpCount (S (jumpCount p)) p in
            set_energy (energy s - ENERGY_JUMP_COST) (set_player p s)
          else s
      else s
  | OtherKey => s
  end.

(** [updatePlayer], lines 129-144. *)
Definition updatePlayer (s : state) : state :=
  let p := player s in
  let p := set_velocityY (velocityY p + GRAVITY) p in
  let p := set_py (py p + velocityY p) p in
  let groundY := CANVAS_HEIGHT - GROUND_HEIGHT - pheight p in
  let p :=
    if py p >=? groundY then
      set_jumpCount 0 (set_isJumping false (set_velocityY 0 (set_py groundY p)))
    else p in
  set_player p s.

(** The generators, lines 147-198.  [k] is the cursor into the stream of
    random draws; [fuel] bounds the number of loop tests. *)
Fixpoint generateObstacles_loop (fuel : nat) (rnd : random_source) (k : nat)
    (totalDistance position : num) (acc : list obstacle)
  : option (list obstacle * nat) :=
  match fuel with
  | O => None
  | S fuel' =>
      if position <? totalDistance + 800 then
        let type := num_floor (rnd k * 2) in
        let width :=
          if type === 0 then 30 + rnd (k + 1)%nat * 20
          else 60 + rnd (k + 1)%nat * 40 in
        let '(height, k') :=
          if type === 0 then (20 + rnd (k + 2)%nat * 30, (k + 3)%nat)
          else (Fin 20, (k + 2)%nat) in
        let o := mkObstacle position (CANVAS_HEIGHT - GROUND_HEIGHT - height)
                            width height type false in
        generateObstacles_loop fuel' rnd (S k') totalDistance
                               (position + (300 + rnd k' * 300)) (acc ++ [o])
      else Some (acc, k)
  end.

Definition generateObstacles (fuel : nat) (rnd : random_source) (k : nat)
    (s : state) : option (state * nat) :=
  let totalDistance := SCROLL_SPEED * GAME_DURATION * 60 in
  match generateObstacles_loop fuel rnd k totalDistance 800 [] with
  | Some (l, k') => Some (set_obstacles l s, k')
  | None => None
  end.

Fixpoint generateMelinjos_loop (fuel : nat) (rnd : random_source) (k : nat)
    (totalDistance position : num) (acc : list melinjo)
  : option (list melinjo * nat) :=
  match fuel with
  | O => None
  | S fuel' =>
      if position <? totalDistance + 800 then
        let height := 100 + rnd k * 150 in
        let m := mkMelinjo position (CANVAS_HEIGHT - GROUND_HEIGHT - height)
                           20 20 false in
        generateMelinjos_loop fuel' rnd (k + 2)%nat totalDistance
                              (position + (200 + rnd (k + 1)%nat * 400))
                              (acc ++ [m])
      else Some (acc, k)
  end.

Definition generateMelinjos (fuel : nat) (rnd : random_source) (k : nat)
    (s : state) : option (state * nat) :=
  let totalDistance := SCROLL_SPEED * GAME_DURATION * 60 in
  match generateMelinjos_loop fuel rnd k totalDistance 800 [] with
  | Some (l, k') => Some (set_melinjos l s, k')
  | None => None
  end.

(** The globals as declared (lines 17-22) and [window.onload] (lines 29-55). *)
Definition onload (fuel : nat) (rnd : random_source) : option state :=
  let p := mkPlayer 100 (CANVAS_HEIGHT - GROUND_HEIGHT - 40) 50 40 0 false 0 in
  let s := mkState p [] [] 0 true 0 ENERGY_MAX in
  match generateObstacles fuel rnd 0 s with
  | Some (s, k) =>
      match generateMelinjos fuel rnd k s with
      | Some (s, _) => Some s
      | None => None
      end
  | None => None
  end.

(** [updateObstacles] and [updateMelinjos], lines 201-212. *)
Definition updateObstacles (s : state) : state :=
  set_obstacles (map (fun o => set_ox (ox o - SCROLL_SPEED) o) (obstacles s)) s.

Definition updateMelinjos (s : state) : state :=
  set_melinjos (map (fun m => set_mx (mx m - SCROLL_SPEED) m) (melinjos s)) s.

(** [updateEnergy], lines 215-226 (the width of the energy bar, a copy of
    [energy] written to the page, is left out). *)
Definition updateEnergy (s : state) : state :=
  if energy s <? ENERGY_MAX then
    let s := set_energy (energy s + ENERGY_REFILL_RATE) s in
    if energy s >? ENERGY_MAX then set_energy ENERGY_MAX s else s
  else s.

(** [checkCollisions], lines 229-270.  The obstacle loop returns at the
    first hit: the obstacles after it are left as they were. *)
Fixpoint checkObstacles (p : Player) (l : list obstacle)
  : list obstacle * bool :=
  match l with
  | [] => ([], false)
  | o :: rest =>
      if negb (passed o)
         && (px p <? ox o + owidth o)
         && (px p + pwidth p >? ox o)
         && (py p <? oy o + oheight o)
         && (py p + pheight p >? oy o)
      then (o :: rest, true)
      else
        let o :=
          if (ox o + owidth o <? px p) && negb (passed o)
          then set_passed true o else o in
        let '(rest, hit) := checkObstacles p rest in
        (o :: rest, hit)
  end.

Fixpoint checkMelinjos (p : Player) (l : list melinjo) (e : num)
  : list melinjo * num :=
  match l with
  | [] => ([], e)
  | m :: rest =>
      if negb (collected m)
         && (px p <? mx m + mwidth m)
         && (px p + pwidth p >? mx m)
         && (py p <? my m + mheight m)
         && (py p + pheight p >? my m)
      then
        let m := set_collected true m in
        let e := e + 30 in
        let e := if e >? ENERGY_MAX then Fin ENERGY_MAX else e in
        let '(rest, e) := checkMelinjos p rest e in
        (m :: rest, e)
      else
        let '(rest, e) := checkMelinjos p rest e in
        (m :: rest, e)
  end.

Definition checkCollisions (s : state) : state :=
  let p := player s in
  let '(obs, hit) := checkObstacles p (obstacles s) in
  let s := set_obstacles obs s in
  if hit then set_gameActive false s
  else
    let '(mels, e) := checkMelinjos p (melinjos s) (energy s) in
    let s := set_energy e (set_melinjos mels s) in
    if py p >? CANVAS_HEIGHT then set_gameActive false s else s.

(** Drawing, lines 302-364: which entities are drawn, and the texts of the
    end screen. *)
Definition drawObstacles (s : state) : list obstacle :=
  filter (fun o => (ox o + owidth o >? 0) && (ox o <? CANVAS_WIDTH))
         (obstacles s).

Definition drawMelinjos (s : state) : list melinjo :=
  filter (fun m => negb (collected m) && (mx m + mwidth m >? 0)
                   && (mx m <? CANVAS_WIDTH))
         (melinjos s).

Definition drawGameOver (s : state) : list string :=
  [ (if gameTime s >=? GAME_DURATION then "Level Complete!" else "Game Over")%string;
    "Press F5 to restart"%string ].

(** [gameLoop], lines 58-100: the next state and what is drawn. *)
Definition render (s : state) : picture :=
  mkPicture (drawObstacles s) (drawMelinjos s) (player s)
            (if negb (gameActive s) then drawGameOver s else []).

Definition gameLoop (timestamp : Q) (s : state) : state * picture :=
  let deltaTime := timestamp - lastTimestamp s in
  let s := set_lastTimestamp timestamp s in
  let s :=
    if gameActive s then
      let s := set_gameTime (gameTime s + deltaTime / 1000) s in
      let s :=
        if gameTime s >=? GAME_DURATION then set_gameActive false s else s in
      let s := updatePlayer s in
      let s := updateObstacles s in
      let s := updateMelinjos s in
      let s := updateEnergy s in
      checkCollisions s
    else s in
  (s, render s).

(** One input event, delivered to the listeners registered for it. *)
Definition step (i : input) (s : state) : state :=
  match i with
  | KeyDown code => onKeyDown code s
  | TouchCanvas | TouchButton => s
  | AnimationFrame timestamp => fst (gameLoop timestamp s)
  end.

Definition run (l : list input) (s : state) : state :=
  fold_left (fun s i => step i s) l s.

(** The states of a run: [onload] with some stream of random draws in
    [0, 1), then any sequence of input events. *)
Inductive reachable : state -> Prop :=
| reachable_onload fuel rnd s :
    draws_in_unit rnd -> onload fuel rnd = Some s -> reachable s
| reachable_step i s :
    reachable s -> reachable (step i s).

End Part000.

(** ** Predicates of the statements below *)

Definition count_Q (n : nat) : Q := inject_Z (Z.of_nat n).

Definition energy_in_bounds (e : num) : Prop :=
  exists q : Q, e = Fin q /\ (0 <= q)%Q /\ (q <= ENERGY_MAX)%Q.

Definition jump_invariant (s : state) : Prop :=
  isJumping (player s) = true -> (1 <= jumpCount (player s))%nat.

Definition x_in_span (x : num) : Prop :=
  exists q : Q, x = Fin q /\ (800 <= q)%Q /\ (q < 9800)%Q.

(** A run used to instantiate the statements: every random draw is 0.5, and
    frames arrive every 16 ms. *)
Definition demo_rnd : random_source := fun _ => 0.5%Q.

Definition demo_frames (n : nat) : list input :=
  map (fun i => AnimationFrame (16 * count_Q i)%Q) (seq 1 n).

(** Touch events, which only [src/game.js] listens to. *)
Definition is_touch (i : input) : bool :=
  match i with
  | TouchCanvas | TouchButton => true
  | KeyDown _ | AnimationFrame _ => false
  end.

(** ** Further names and predicates for [src/game.js] *)

Module GameJsMore.
Import GameJs.

(** The test of the obstacle loop (lines 317-321), its geometric part, and
    the test of line 328 that marks an obstacle as passed. *)
Definition obstacle_hit (p : Player) (o : obstacle) : bool :=
  negb (passed o)
  && (px p <? ox o + owidth o)
  && (px p + pwidth p >? ox o)
  && (py p <? oy o + oheight o)
  && (py p + pheight p >? oy o).

Definition obstacle_overlap (p : Player) (o : obstacle) : bool :=
  (px p <? ox o + owidth o)
  && (px p + pwidth p >? ox o)
  && (py p <? oy o + oheight o)
  && (py p + pheight p >? oy o).

Definition obstacle_behind (p : Player) (o : obstacle) : bool :=
  ox o + owidth o <? px p.

(** What the obstacle loop does to an obstacle it examines without a hit. *)
Definition mark_passed (p : Player) (o : obstacle) : obstacle :=
  if obstacle_behind p o && negb (passed o) then set_passed true o else o.

(** Positions placed by a generator loop: from [p], while [p < bound], an
    entity at [p] and then the next position [p + gap], [lo <= gap < hi]. *)
Inductive placed (lo hi bound : Q) : Q -> list num -> Prop :=
| placed_end (p : Q) :
    (bound <= p)%Q -> placed lo hi bound p []
| placed_next (p gap : Q) (l : list num) :
    (p < bound)%Q -> (lo <= gap)%Q -> (gap < hi)%Q ->
    placed lo hi bound (p + gap) l ->
    placed lo hi bound p (Fin p :: l).

(** The shape of a generated obstacle (lines 242-252) and pickup (lines
    270-278). *)
Definition obstacle_shape (o : obstacle) : Prop :=
  exists w h y : Q,
    owidth o = Fin w /\ oheight o = Fin h /\ oy o = Fin y
    /\ (y + h == CANVAS_HEIGHT - GROUND_HEIGHT)%Q
    /\ passed o = false
    /\ ((otype o = Fin (inject_Z 0)
         /\ (30 <= w)%Q /\ (w < 50)%Q /\ (20 <= h)%Q /\ (h < 50)%Q)
        \/ (otype o = Fin (inject_Z 1)
            /\ (60 <= w)%Q /\ (w < 100)%Q /\ (h == 20)%Q)).

Definition melinjo_shape (m : melinjo) : Prop :=
  exists y : Q,
    my m = Fin y /\ (100 < y)%Q /\ (y <= 250)%Q
    /\ mwidth m = Fin 20 /\ mheight m = Fin 20 /\ collected m = false.

(** The [k]-th obstacle and the [k]-th pickup of a generated level, counted
    from 0 (lines 232-283). *)
Definition obstacle_in_level (k : nat) (o : obstacle) : Prop :=
  exists x w h y : Q,
    ox o = Fin x /\ owidth o = Fin w /\ oheight o = Fin h /\ oy o = Fin y
    /\ (800 + 300 * count_Q k <= x)%Q /\ (x <= 800 + 600 * count_Q k)%Q
    /\ (x < 9800)%Q
    /\ passed o = false
    /\ ((otype o = Fin (inject_Z 0)
         /\ (30 <= w)%Q /\ (w <= 50)%Q /\ (20 <= h)%Q /\ (h <= 50)%Q
         /\ (300 <= y)%Q /\ (y <= 330)%Q)
        \/ (otype o = Fin (inject_Z 1)
            /\ (60 <= w)%Q /\ (w <= 100)%Q /\ (h == 20)%Q /\ (y == 330)%Q)).

Definition melinjo_in_level (k : nat) (m : melinjo) : Prop :=
  exists x y : Q,
    mx m = Fin x /\ my m = Fin y
    /\ (800 + 200 * count_Q k <= x)%Q /\ (x <= 800 + 600 * count_Q k)%Q
    /\ (x < 9800)%Q
    /\ (100 <= y)%Q /\ (y <= 250)%Q
    /\ mwidth m = Fin 20 /\ mheight m = Fin 20 /\ collected m = false.

(** How an entity of one state relates to the same entity later in the
    run. *)
Definition obstacle_evolves (o o' : obstacle) : Prop :=
  oy o' = oy o /\ owidth o' = owidth o /\ oheight o' = oheight o
  /\ otype o' = otype o
  /\ (passed o = true -> passed o' = true)
  /\ (forall x : Q, ox o = Fin x ->
      exists x' : Q, ox o' = Fin x' /\ (x' <= x)%Q).

Definition melinjo_evolves (m m' : melinjo) : Prop :=
  my m' = my m /\ mwidth m' = mwidth m /\ mheight m' = mheight m
  /\ (collected m = true -> collected m' = true)
  /\ (forall x : Q, mx m = Fin x ->
      exists x' : Q, mx m' = Fin x' /\ (x' <= x)%Q).

(** What holds of the player and of the entities in every state of a run. *)
Definition player_invariant (p : Player) : Prop :=
  px p = Fin 100 /\ pwidth p = Fin 50 /\ pheight p = Fin 40
  /\ (exists y : Q, py p = Fin y /\ (y <= 310)%Q)
  /\ (exists v : Q, velocityY p = Fin v)
  /\ (isJumping p = true -> (1 <= jumpCount p)%nat).

Definition obstacle_invariant (o : obstacle) : Prop :=
  exists x w y h : Q,
    ox o = Fin x /\ owidth o = Fin w /\ oy o = Fin y /\ oheight o = Fin h
    /\ (passed o = true -> (x + w < 100)%Q).

Definition melinjo_invariant (m : melinjo) : Prop :=
  exists x y : Q,
    mx m = Fin x /\ my m = Fin y /\ (100 < y)%Q /\ (y <= 250)%Q
    /\ mwidth m = Fin 20 /\ mheight m = Fin 20.

Definition world_invariant (s : state) : Prop :=
  player_invariant (player s)
  /\ Forall obstacle_invariant (obstacles s)
  /\ Forall melinjo_invariant (melinjos s)
  /\ (gameActive s = false ->
      (gameTime s >=? GAME_DURATION) = true
      \/ existsb (obstacle_hit (player s)) (obstacles s) = true).

(** The clock of every state of a run. *)
Definition clock_invariant (s : state) : Prop :=
  exists g t : Q,
    gameTime s = Fin g /\ lastTimestamp s = Fin t
    /\ (gameActive s = true -> (g < GAME_DURATION)%Q).

(** [k] jump requests in a row, with no frame in between. *)
Definition jumps (k : nat) (s : state) : state := Nat.iter k handleJump s.

End GameJsMore.

(** A longer run: 128 frames, a jump just before the first obstacle, and [n]
    more frames. *)
Definition demo_jump_run (n : nat) : list input :=
  demo_frames 128
  ++ KeyDown Space
     :: map (fun i => AnimationFrame (16 * count_Q i)%Q) (seq 129 n).

(** ** The writes of one frame, in program order ([src/game.js]) *)

Module FrameTrace.
Import GameJs.








End FrameTrace.

(** ** The page around the simulation ([src/game.js] only) *)

Module Page.
Import GameJs.

(** The restart button of [drawGameOver], lines 447-451, and the test of its
    touch listener, lines 465-481.  [rect] is what [getBoundingClientRect]
    returns for the canvas, whose resolution is [CANVAS_WIDTH] by
    [CANVAS_HEIGHT]. *)
Definition buttonWidth : Q := 200.
Definition buttonHeight : Q := 60.
Definition buttonX : num := CANVAS_WIDTH / 2 - buttonWidth / 2.
Definition buttonY : num := CANVAS_HEIGHT / 2 + 50.

Record touch : Type := mkTouch { clientX : num; clientY : num }.

Record dom_rect : Type := mkRect {
  rect_left : num;
  rect_top : num;
  rect_width : num;
  rect_height : num
}.

Definition restartTouch (active : bool) (t : touch) (rect : dom_rect) : bool :=
  if negb active then
    let scaleX := CANVAS_WIDTH / rect_width rect in
    let scaleY := CANVAS_HEIGHT / rect_height rect in
    let touchX := (clientX t - rect_left rect) * scaleX in
    let touchY := (clientY t - rect_top rect) * scaleY in
    (touchX >=? buttonX) && (touchX <=? buttonX + buttonWidth)
    && (touchY >=? buttonY) && (touchY <=? buttonY + buttonHeight)
  else false.

(** The page: the simulation, the flag [window.restartListenerAdded] (absent
    at first, which reads as false) and the number of times the pair of
    restart listeners has been registered. *)
Record page : Type := mkPage {
  game : state;
  restartListenerAdded : bool;
  restartListeners : nat
}.

Definition onload_page (fuel : nat) (rnd : random_source) : option page :=
  match onload fuel rnd with
  | Some s => Some (mkPage s false 0)
  | None => None
  end.

(** The registration at the end of [drawGameOver], lines 463-494. *)
Definition drawGameOver_listeners (pg : page) : page :=
  let pg :=
    if negb (restartListenerAdded pg)
    then mkPage (game pg) true (S (restartListeners pg))
    else pg in
  mkPage (game pg) true (restartListeners pg).

Definition page_gameLoop (timestamp : Q) (pg : page) : page :=
  let s := fst (gameLoop timestamp (game pg)) in
  let pg := mkPage s (restartListenerAdded pg) (restartListeners pg) in
  if negb (gameActive s) then drawGameOver_listeners pg else pg.

Inductive page_input : Type :=
| PageKeyDown (code : key)
| PageCanvasTouch (t : touch) (rect : dom_rect)
| PageButtonTouch
| PageFrame (timestamp : Q).

(** One event: the next page and the number of calls of [location.reload].
    Listeners of one event run in the order of their registration, the jump
    listener of [setupControls] first. *)
Definition page_step (i : page_input) (pg : page) : page * nat :=
  match i with
  | PageKeyDown code =>
      let s := onKeyDown code (game pg) in
      let pg := mkPage s (restartListenerAdded pg) (restartListeners pg) in
      (pg, match code with
           | Space => if negb (gameActive s) then restartListeners pg else 0%nat
           | OtherKey => 0%nat
           end)
  | PageCanvasTouch t rect =>
      let s := onCanvasTouch (game pg) in
      let pg := mkPage s (restartListenerAdded pg) (restartListeners pg) in
      (pg, if restartTouch (gameActive s) t rect
           then restartListeners pg else 0%nat)
  | PageButtonTouch =>
      (mkPage (onButtonTouch (game pg)) (restartListenerAdded pg)
              (restartListeners pg), 0%nat)
  | PageFrame timestamp => (page_gameLoop timestamp pg, 0%nat)
  end.

(** Once the game is over the listeners are registered, once. *)
Definition page_invariant (pg : page) : Prop :=
  restartListenerAdded pg = negb (gameActive (game pg))
  /\ restartListeners pg = if gameActive (game pg) then 0%nat else 1%nat.

(** The pages of a run: a reload ends the run. *)
Inductive page_reachable : page -> Prop :=
| page_reachable_onload fuel rnd pg :
    draws_in_unit rnd -> onload_page fuel rnd = Some pg -> page_reachable pg
| page_reachable_step i pg :
    page_reachable pg -> snd (page_step i pg) = 0%nat ->
    page_reachable (fst (page_step i pg)).

End Page.

(** * Properties *)

(** ** Facts about the number model *)

Lemma Qltb_spec (x y : Q) : reflect (x < y)%Q (Qltb x y).
Proof.
  unfold Qltb, Qlt. apply iff_reflect. symmetry. apply Z.ltb_lt.
Qed.

Lemma Qleb_spec (x y : Q) : reflect (x <= y)%Q (Qle_bool x y).
Proof.
  apply iff_reflect. symmetry. apply Qle_bool_iff.
Qed.

Lemma Qeqb_spec (x y : Q) : reflect (x == y)%Q (Qeq_bool x y).
Proof.
  apply iff_reflect. symmetry. apply Qeq_bool_iff.
Qed.

(** Unfold the game constants before linear arithmetic. *)
Ltac unfold_consts :=
  unfold CANVAS_WIDTH, CANVAS_HEIGHT, GROUND_HEIGHT, GRAVITY, JUMP_FORCE,
    FLYING_FORCE_MULTIPLIER, ENERGY_MAX, ENERGY_JUMP_COST, ENERGY_REFILL_RATE,
    GAME_DURATION, SCROLL_SPEED in *.

Module EnergyFacts.
Import GameJs.

Lemma handleJump_energy (s : state) :
  energy_in_bounds (energy s) ->
  exists q q' : Q,
    energy s = Fin q /\ energy (handleJump s) = Fin q' /\
    (q' == if Qle_bool ENERGY_JUMP_COST q then q - ENERGY_JUMP_COST else q)%Q /\
    (0 <= q')%Q /\ (q' <= ENERGY_MAX)%Q.
Proof.
  intros (q & Hq & H0 & H1). exists q.
  unfold handleJump. rewrite Hq. simpl.
  destruct (isJumping (player s)); simpl;
    destruct (Qleb_spec ENERGY_JUMP_COST q); simpl; rewrite ?Hq;
    eexists; (split; [reflexivity|]); (split; [reflexivity|]);
    unfold_consts; split; try lra.
Qed.

Lemma updateEnergy_energy (s : state) :
  energy_in_bounds (energy s) ->
  exists q q' : Q,
    energy s = Fin q /\ energy (updateEnergy s) = Fin q' /\
    (q' == Qmin (q + ENERGY_REFILL_RATE) ENERGY_MAX)%Q /\
    (0 <= q')%Q /\ (q' <= ENERGY_MAX)%Q.
Proof.
  intros (q & Hq & H0 & H1). exists q.
  unfold updateEnergy. rewrite Hq. simpl.
  destruct (Q.min_spec (q + ENERGY_REFILL_RATE) ENERGY_MAX) as [[Hlt Hm]|[Hle Hm]];
    unfold_consts;
    destruct (Qltb_spec q 100); simpl; unfold num_gtb; simpl;
    [ destruct (Qltb_spec 100 (q + 0.3)) | | destruct (Qltb_spec 100 (q + 0.3)) | ];
    simpl; rewrite ?Hq;
    eexists; (split; [reflexivity|]); (split; [reflexivity|]);
    rewrite Hm; repeat split; lra.
Qed.

Lemma count_Q_nonneg (n : nat) : (0 <= count_Q n)%Q.
Proof.
  unfold count_Q. change 0%Q with (inject_Z 0). rewrite <- Zle_Qle. lia.
Qed.

Lemma count_Q_succ (n : nat) : (count_Q (S n) == count_Q n + 1)%Q.
Proof.
  unfold count_Q. rewrite Nat2Z.inj_succ. unfold Z.succ.
  rewrite inject_Z_plus. reflexivity.
Qed.

Lemma checkMelinjos_energy (p : Player) (l : list melinjo) :
  forall q : Q, (0 <= q)%Q -> (q <= ENERGY_MAX)%Q ->
  exists q' : Q,
    snd (checkMelinjos p l q) = Fin q' /\
    (q' == Qmin (q + 30 * count_Q (List.length (filter (melinjo_hit p) l)))
                ENERGY_MAX)%Q /\
    (0 <= q')%Q /\ (q' <= ENERGY_MAX)%Q.
Proof.
  induction l as [|m l IH]; intros q H0 H1; simpl.
  - exists q. split; [reflexivity|].
    destruct (Q.min_spec (q + 30 * count_Q 0) ENERGY_MAX) as [[_ Hm]|[Hle Hm]];
      rewrite Hm; unfold count_Q in *; simpl in *; unfold_consts;
      change (inject_Z 0) with 0%Q in *; repeat split; lra.
  - unfold melinjo_hit at 1.
    destruct (negb (collected m) && (px p <? mx m + mwidth m)
              && (px p + pwidth p >? mx m) && (py p <? my m + mheight m)
              && (py p + pheight p >? my m)).
    + unfold num_gtb; simpl. unfold_consts.
      destruct (Qltb_spec 100 (q + 30)) as [Hgt|Hle].
      * destruct (IH 100%Q) as (q' & Hq' & Heq & Hb); try lra.
        destruct (checkMelinjos p l 100%Q) as [rest e]. simpl in *.
        exists q'. split; [assumption|]. split; [|assumption].
        rewrite Heq. rewrite count_Q_succ.
        pose proof (count_Q_nonneg (List.length (filter (melinjo_hit p) l))) as Hn.
        set (n := count_Q (List.length (filter (melinjo_hit p) l))) in *.
        destruct (Q.min_spec (100 + 30 * n) 100) as [[? Hm]|[? Hm]];
        destruct (Q.min_spec (q + 30 * (n + 1)) 100) as [[? Hm']|[? Hm']];
          rewrite Hm, Hm'; lra.
      * destruct (IH (q + 30)%Q) as (q' & Hq' & Heq & Hb); try lra.
        destruct (checkMelinjos p l (q + 30)%Q) as [rest e]. simpl in *.
        exists q'. split; [assumption|]. split; [|assumption].
        rewrite Heq. rewrite count_Q_succ.
        set (n := count_Q (List.length (filter (melinjo_hit p) l))) in *.
        destruct (Q.min_spec (q + 30 + 30 * n) 100) as [[? Hm]|[? Hm]];
        destruct (Q.min_spec (q + 30 * (n + 1)) 100) as [[? Hm']|[? Hm']];
          rewrite Hm, Hm'; lra.
    + destruct (IH q) as (q' & Hq' & Heq & Hb); try assumption.
      destruct (checkMelinjos p l q) as [rest e]. simpl in *.
      exists q'. auto.
Qed.

Lemma checkCollisions_energy (s : state) :
  energy_in_bounds (energy s) ->
  exists q q' : Q,
    energy s = Fin q /\ energy (checkCollisions s) = Fin q' /\
    (q' == Qmin (q + 30 * count_Q (collected_now s)) ENERGY_MAX)%Q /\
    (0 <= q')%Q /\ (q' <= ENERGY_MAX)%Q.
Proof.
  intros (q & Hq & H0 & H1). exists q.
  unfold checkCollisions, collected_now.
  destruct (checkObstacles (player s) (obstacles s)) as [obs hit].
  destruct hit; simpl.
  - exists q. repeat split; try assumption.
    destruct (Q.min_spec (q + 30 * count_Q 0) ENERGY_MAX) as [[_ Hm]|[Hle Hm]];
      rewrite Hm; unfold count_Q in *; simpl in *; unfold_consts;
      change (inject_Z 0) with 0%Q in *; lra.
  - rewrite Hq.
    destruct (checkMelinjos_energy (player s) (melinjos s) q H0 H1)
      as (q' & Hq' & Hrest).
    destruct (checkMelinjos (player s) (melinjos s) q) as [mels e].
    simpl in Hq'. subst e. exists q'.
    match goal with |- context [if ?c then _ else _] => destruct c end;
      (split; [reflexivity|]); (split; [reflexivity|]); assumption.
Qed.

Lemma gameLoop_state (timestamp : Q) (s : state) :
  fst (gameLoop timestamp s) =
  if gameActive s then frame_updates (frame_clock timestamp s)
  else set_lastTimestamp timestamp s.
Proof.
  unfold gameLoop, frame_updates, frame_clock. simpl.
  destruct (gameActive s); reflexivity.
Qed.

Lemma frame_clock_energy ts s : energy (frame_clock ts s) = energy s.
Proof.
  unfold frame_clock.
  match goal with |- context [if ?c then _ else _] => destruct c end;
    reflexivity.
Qed.

Lemma frame_clock_player ts s : player (frame_clock ts s) = player s.
Proof.
  unfold frame_clock.
  match goal with |- context [if ?c then _ else _] => destruct c end;
    reflexivity.
Qed.

Lemma updateEnergy_player s : player (updateEnergy s) = player s.
Proof.
  unfold updateEnergy.
  repeat match goal with |- context [if ?c then _ else _] => destruct c end;
    reflexivity.
Qed.

Lemma checkCollisions_player s : player (checkCollisions s) = player s.
Proof.
  unfold checkCollisions.
  destruct (checkObstacles _ _) as [obs hit].
  destruct hit; [reflexivity|].
  destruct (checkMelinjos _ _ _) as [mels e].
  match goal with |- context [if ?c then _ else _] => destruct c end;
    reflexivity.
Qed.

Lemma frame_updates_player s :
  player (frame_updates s) = player (updatePlayer s).
Proof.
  unfold frame_updates. rewrite checkCollisions_player, updateEnergy_player.
  reflexivity.
Qed.

Lemma frame_updates_energy s :
  energy_in_bounds (energy s) -> energy_in_bounds (energy (frame_updates s)).
Proof.
  intros H. unfold frame_updates.
  set (s1 := updateMelinjos (updateObstacles (updatePlayer s))).
  assert (H1 : energy_in_bounds (energy s1)) by exact H.
  destruct (updateEnergy_energy s1 H1) as (q & q' & _ & Hq' & _ & Hb).
  assert (H2 : energy_in_bounds (energy (updateEnergy s1)))
    by (exists q'; auto).
  destruct (checkCollisions_energy _ H2) as (q1 & q1' & _ & Hq1' & _ & Hb1).
  exists q1'. auto.
Qed.

Lemma gameLoop_energy ts s :
  energy_in_bounds (energy s) ->
  energy_in_bounds (energy (fst (gameLoop ts s))).
Proof.
  intros H. rewrite gameLoop_state. destruct (gameActive s); [|exact H].
  apply frame_updates_energy. rewrite frame_clock_energy. exact H.
Qed.

Lemma generateObstacles_energy fuel rnd k s s' k' :
  generateObstacles fuel rnd k s = Some (s', k') ->
  energy s' = energy s /\ player s' = player s
  /\ gameTime s' = gameTime s /\ lastTimestamp s' = lastTimestamp s
  /\ gameActive s' = gameActive s.
Proof.
  unfold generateObstacles.
  destruct (generateObstacles_loop _ _ _ _ _ _) as [[l k1]|]; [|discriminate].
  intros H. injection H as <- _. repeat split.
Qed.

Lemma generateMelinjos_energy fuel rnd k s s' k' :
  generateMelinjos fuel rnd k s = Some (s', k') ->
  energy s' = energy s /\ player s' = player s
  /\ gameTime s' = gameTime s /\ lastTimestamp s' = lastTimestamp s
  /\ gameActive s' = gameActive s.
Proof.
  unfold generateMelinjos.
  destruct (generateMelinjos_loop _ _ _ _ _ _) as [[l k1]|]; [|discriminate].
  intros H. injection H as <- _. repeat split.
Qed.

(** The fields that [onload] sets and the generators leave alone. *)
Lemma onload_fields fuel rnd s :
  onload fuel rnd = Some s ->
  energy s = Fin ENERGY_MAX
  /\ player s
     = mkPlayer 100 (CANVAS_HEIGHT - GROUND_HEIGHT - 40) 50 40 0 false 0
  /\ gameTime s = Fin 0 /\ lastTimestamp s = Fin 0 /\ gameActive s = true.
Proof.
  unfold onload.
  destruct (generateObstacles _ _ _ _) as [[s1 k1]|] eqn:E1; [|discriminate].
  destruct (generateMelinjos _ _ _ _) as [[s2 k2]|] eqn:E2; [|discriminate].
  intros H. injection H as <-.
  apply generateObstacles_energy in E1. apply generateMelinjos_energy in E2.
  destruct E1 as (-> & -> & -> & -> & ->) in E2.
  destruct E2 as (-> & -> & -> & -> & ->). repeat split.
Qed.

(** Induction over a run: a property of the state that holds after [onload]
    and is kept by the jump handler and by a frame holds in every state. *)
Lemma reachable_invariant (P : state -> Prop) :
  (forall fuel rnd s, onload fuel rnd = Some s -> P s) ->
  (forall s, P s -> P (handleJump s)) ->
  (forall ts s, P s -> P (fst (gameLoop ts s))) ->
  forall s, reachable s -> P s.
Proof.
  intros Hinit Hjump Hframe s H.
  induction H as [fuel rnd s _ H|i s H IH]; [eauto|].
  destruct i as [code| | |ts]; cbn [step].
  - destruct code; unfold onKeyDown; [destruct (gameActive s)|]; auto.
  - unfold onCanvasTouch. destruct (gameActive s); auto.
  - unfold onButtonTouch. destruct (gameActive s); auto.
  - apply Hframe, IH.
Qed.

Lemma reachable_energy :
  forall s, reachable s -> energy_in_bounds (energy s).
Proof.
  apply (reachable_invariant (fun s => energy_in_bounds (energy s))).
  - intros fuel rnd s0 H. apply onload_fields in H. destruct H as (-> & _).
    exists ENERGY_MAX. unfold_consts. repeat split; lra.
  - intros s0 H. destruct (handleJump_energy s0 H) as (q & q' & _ & ? & _ & ?).
    exists q'. auto.
  - intros ts s0. apply gameLoop_energy.
Qed.

Lemma reachable_run (l : list input) :
  forall s, reachable s -> reachable (run l s).
Proof.
  induction l as [|i l IH]; intros s H; [exact H|].
  change (run (i :: l) s) with (run l (step i s)).
  apply IH. now apply reachable_step.
Qed.

Lemma demo_rnd_in_unit : draws_in_unit demo_rnd.
Proof. intros i. unfold demo_rnd. split; lra. Qed.

Lemma reachable_demo (l : list input) (s0 : state) :
  onload 46 demo_rnd = Some s0 -> reachable (run l s0).
Proof.
  intros H. apply reachable_run.
  exact (reachable_onload 46 demo_rnd s0 demo_rnd_in_unit H).
Qed.

(** C1.  In every reachable state the energy is a finite number between 0
    and [ENERGY_MAX].  Moreover, from any state whose energy [q] is within
    these bounds: the refill of [updateEnergy] yields
    [min (q + ENERGY_REFILL_RATE) ENERGY_MAX]; [handleJump] yields
    [q - ENERGY_JUMP_COST] when [ENERGY_JUMP_COST <= q] and [q] otherwise;
    [checkCollisions] yields [min (q + 30 * n) ENERGY_MAX], where [n] is the
    number of pickups it collects; and each result is within the bounds. *)
Theorem energy_stays_in_bounds :
  (forall s, reachable s -> energy_in_bounds (energy s))
  /\ (forall s, energy_in_bounds (energy s) ->
      exists q : Q,
        energy s = Fin q
        /\ (exists q1 : Q,
              energy (updateEnergy s) = Fin q1
              /\ (q1 == Qmin (q + ENERGY_REFILL_RATE) ENERGY_MAX)%Q
              /\ (0 <= q1)%Q /\ (q1 <= ENERGY_MAX)%Q)
        /\ (exists q2 : Q,
              energy (handleJump s) = Fin q2
              /\ (q2 == if Qle_bool ENERGY_JUMP_COST q
                        then q - ENERGY_JUMP_COST else q)%Q
              /\ (0 <= q2)%Q /\ (q2 <= ENERGY_MAX)%Q)
        /\ (exists q3 : Q,
              energy (checkCollisions s) = Fin q3
              /\ (q3 == Qmin (q + 30 * count_Q (collected_now s))
                             ENERGY_MAX)%Q
              /\ (0 <= q3)%Q /\ (q3 <= ENERGY_MAX)%Q)).
Proof.
  split; [exact reachable_energy|].
  intros s H.
  destruct (updateEnergy_energy s H) as (q & q1 & Hq & H1).
  destruct (handleJump_energy s H) as (q' & q2 & Hq' & H2).
  destruct (checkCollisions_energy s H) as (q'' & q3 & Hq'' & H3).
  assert (q' = q) by congruence. assert (q'' = q) by congruence. subst q' q''.
  exists q. split; [exact Hq|].
  split; [exists q1; exact H1|]. split; [exists q2; exact H2|].
  exists q3; exact H3.
Qed.

Lemma energy_stays_in_bounds_witness :
  exists s0 : state,
    onload 46 demo_rnd = Some s0
    /\ energy_in_bounds
         (energy (run [KeyDown Space; AnimationFrame 16; KeyDown Space] s0)).
Proof.
  eexists. split; [vm_compute; reflexivity|].
  apply (proj1 energy_stays_in_bounds).
  apply reachable_demo. vm_compute; reflexivity.
Defined.

End EnergyFacts.

Module JumpFacts.
Import GameJs EnergyFacts.

Lemma updatePlayer_cases (s : state) :
  let p := player s in
  let p' := player (updatePlayer s) in
  (py p' >? groundY p') = false
  /\ pheight p' = pheight p
  /\ ((py p + (velocityY p + GRAVITY) >=? groundY p) = true ->
      py p' = groundY p /\ velocityY p' = Fin 0
      /\ isJumping p' = false /\ jumpCount p' = 0%nat)
  /\ ((py p + (velocityY p + GRAVITY) >=? groundY p) = false ->
      py p' = py p + (velocityY p + GRAVITY)
      /\ velocityY p' = velocityY p + GRAVITY
      /\ isJumping p' = isJumping p /\ jumpCount p' = jumpCount p).
Proof.
  unfold updatePlayer, groundY; cbn zeta.
  destruct (player s) as [x y w h v j c]; cbn [px py pwidth pheight velocityY isJumping jumpCount set_py set_velocityY set_isJumping set_jumpCount set_player player].
  destruct (y + (v + GRAVITY) >=? CANVAS_HEIGHT - GROUND_HEIGHT - h) eqn:E;
    cbn [px py pwidth pheight velocityY isJumping jumpCount set_py set_velocityY set_isJumping set_jumpCount set_player player].
  - repeat split; try discriminate.
    destruct h as [h| | |]; simpl in *; unfold num_gtb; simpl; try reflexivity.
    unfold Qltb. apply Z.ltb_irrefl.
  - repeat split; try discriminate.
    unfold num_geb in E. unfold num_gtb.
    destruct (y + (v + GRAVITY)) as [a| | |], (CANVAS_HEIGHT - GROUND_HEIGHT - h) as [b| | |];
      simpl in *; try reflexivity; try discriminate.
    destruct (Qltb_spec b a), (Qleb_spec b a); try reflexivity; try discriminate; lra.
Qed.

Lemma handleJump_rejected (s : state) :
  (energy s >=? ENERGY_JUMP_COST) = false -> handleJump s = s.
Proof.
  intros H. unfold handleJump. rewrite H.
  destruct (negb (isJumping (player s))); reflexivity.
Qed.

Lemma num_ltb_not_geb (a b : num) : (a <? b) = true -> (a >=? b) = false.
Proof.
  unfold num_geb.
  destruct a as [x| | |], b as [y| | |]; simpl; try discriminate; try reflexivity.
  destruct (Qltb_spec x y), (Qleb_spec y x); try reflexivity; try discriminate.
  lra.
Qed.

Lemma handleJump_accepted (s : state) :
  (energy s >=? ENERGY_JUMP_COST) = true ->
  let p := player s in
  let s' := handleJump s in
  let p' := player s' in
  energy s' = energy s - ENERGY_JUMP_COST
  /\ velocityY p' = (if isJumping p then flyingForce (jumpCount p)
                     else Fin JUMP_FORCE)
  /\ isJumping p' = true
  /\ jumpCount p' = (if isJumping p then S (jumpCount p) else 1%nat)
  /\ px p' = px p /\ py p' = py p /\ pwidth p' = pwidth p
  /\ pheight p' = pheight p
  /\ obstacles s' = obstacles s /\ melinjos s' = melinjos s
  /\ gameTime s' = gameTime s /\ gameActive s' = gameActive s
  /\ lastTimestamp s' = lastTimestamp s
  /\ s' <> s.
Proof.
  intros H. unfold handleJump, flyingForce. rewrite H.
  destruct (isJumping (player s)) eqn:Ej; cbn.
  - rewrite Ej. repeat split.
    intros Heq. apply (f_equal (fun x => jumpCount (player x))) in Heq.
    cbn in Heq. lia.
  - repeat split.
    intros Heq. apply (f_equal (fun x => isJumping (player x))) in Heq.
    cbn in Heq. congruence.
Qed.

(** C5.  For every state: when [energy < ENERGY_JUMP_COST], the jump handler
    and every listener that calls it leave the whole state unchanged; when
    [energy >= ENERGY_JUMP_COST], [handleJump] debits the energy by exactly
    [ENERGY_JUMP_COST], sets the velocity (to [JUMP_FORCE], or to the flying
    impulse when already jumping), sets [isJumping], sets [jumpCount] to 1
    or increments it, and the resulting state differs from the old one; in
    an active game every listener of both variants delivers the request to
    this handler. *)
Theorem jump_request_gate (s : state) :
  ((energy s <? ENERGY_JUMP_COST) = true ->
   handleJump s = s /\ onKeyDown Space s = s /\ onCanvasTouch s = s
   /\ onButtonTouch s = s /\ Part000.onKeyDown Space s = s)
  /\ ((energy s >=? ENERGY_JUMP_COST) = true ->
      let p := player s in
      let s' := handleJump s in
      let p' := player s' in
      energy s' = energy s - ENERGY_JUMP_COST
      /\ velocityY p' = (if isJumping p then flyingForce (jumpCount p)
                         else Fin JUMP_FORCE)
      /\ isJumping p' = true
      /\ jumpCount p' = (if isJumping p then S (jumpCount p) else 1%nat)
      /\ s' <> s
      /\ (gameActive s = true ->
          onKeyDown Space s = s' /\ onCanvasTouch s = s'
          /\ onButtonTouch s = s' /\ Part000.onKeyDown Space s = s')).
Proof.
  split.
  - intros H. apply num_ltb_not_geb in H.
    pose proof (handleJump_rejected s H) as Hr.
    unfold onKeyDown, onCanvasTouch, onButtonTouch, Part000.onKeyDown.
    fold (handleJump s). rewrite Hr.
    destruct (gameActive s); repeat split.
  - intros H. destruct (handleJump_accepted s H)
      as (He & Hv & Hj & Hc & _ & _ & _ & _ & _ & _ & _ & _ & _ & Hne).
    cbn zeta.
    split; [exact He|]. split; [exact Hv|]. split; [exact Hj|].
    split; [exact Hc|]. split; [exact Hne|].
    intros Hact.
    unfold onKeyDown, onCanvasTouch, onButtonTouch, Part000.onKeyDown.
    fold (handleJump s). rewrite Hact. repeat split.
Qed.

Lemma count_Q_pos (n : nat) : (1 <= n)%nat -> (0 < count_Q n)%Q.
Proof.
  intros H. unfold count_Q. change 0%Q with (inject_Z 0).
  rewrite <- Zlt_Qlt. lia.
Qed.

Lemma count_Q_lt (m n : nat) : (m < n)%nat -> (count_Q m < count_Q n)%Q.
Proof.
  intros H. unfold count_Q. rewrite <- Zlt_Qlt. lia.
Qed.

Lemma flyingForce_finite (n : nat) :
  (1 <= n)%nat ->
  flyingForce n = Fin (JUMP_FORCE * FLYING_FORCE_MULTIPLIER / count_Q n).
Proof.
  intros H. apply count_Q_pos in H.
  unfold flyingForce, num_of_nat. fold (count_Q n). simpl.
  destruct (Qeqb_spec (count_Q n) 0) as [E|_]; [lra|reflexivity].
Qed.

Lemma flyingForce_zero : flyingForce 0 = NInf.
Proof. reflexivity. Qed.

Lemma flyingForce_abs (n : nat) :
  (1 <= n)%nat ->
  exists q : Q, num_abs (flyingForce n) = Fin q /\ (q == 7.5 * / count_Q n)%Q.
Proof.
  intros H. rewrite (flyingForce_finite n H). cbn [num_abs].
  eexists. split; [reflexivity|].
  apply count_Q_pos in H. unfold Qdiv.
  rewrite Qabs_Qmult, Qabs_Qinv, (Qabs_pos (count_Q n)) by lra.
  unfold_consts. rewrite Qabs_neg by lra. lra.
Qed.

Lemma flyingForce_decreasing (m n : nat) :
  (m < n)%nat -> (num_abs (flyingForce n) <? num_abs (flyingForce m)) = true.
Proof.
  intros H.
  destruct (flyingForce_abs n) as (qn & -> & Hn); [lia|].
  destruct m as [|m].
  - reflexivity.
  - destruct (flyingForce_abs (S m)) as (qm & -> & Hm); [lia|].
    cbn [num_ltb]. destruct (Qltb_spec qn qm) as [_|Hge]; [reflexivity|].
    exfalso. apply Hge. rewrite Hn, Hm.
    assert (H0 : (0 < count_Q (S m))%Q) by (apply count_Q_pos; lia).
    pose proof (count_Q_lt _ _ H) as Hlt.
    assert (Hinv : (/ count_Q n < / count_Q (S m))%Q).
    { apply -> Qinv_lt_contravar; lra. }
    lra.
Qed.

(** ** The divisor of the flying impulse (C7) *)

Lemma handleJump_jump_invariant (s : state) :
  jump_invariant s -> jump_invariant (handleJump s).
Proof.
  unfold jump_invariant, handleJump. intros H.
  destruct (isJumping (player s)) eqn:Ej; cbn [negb];
    destruct (energy s >=? ENERGY_JUMP_COST); cbn; rewrite ?Ej; intros;
    auto; try congruence; lia.
Qed.

Lemma updatePlayer_jump_invariant (s : state) :
  jump_invariant s -> jump_invariant (updatePlayer s).
Proof.
  unfold jump_invariant. intros H.
  destruct (updatePlayer_cases s) as (_ & _ & Hland & Hair).
  cbn zeta in Hland, Hair.
  destruct (py (player s) + (velocityY (player s) + GRAVITY)
            >=? groundY (player s)).
  - destruct Hland as (_ & _ & Hj & _); [reflexivity|]. congruence.
  - destruct Hair as (_ & _ & Hj & Hc); [reflexivity|].
    rewrite Hj, Hc. exact H.
Qed.

Lemma gameLoop_player (ts : Q) (s : state) :
  player (fst (gameLoop ts s)) =
  if gameActive s then player (updatePlayer (frame_clock ts s))
  else player s.
Proof.
  rewrite gameLoop_state. destruct (gameActive s); [|reflexivity].
  apply frame_updates_player.
Qed.

Lemma gameLoop_jump_invariant (ts : Q) (s : state) :
  jump_invariant s -> jump_invariant (fst (gameLoop ts s)).
Proof.
  intros H. unfold jump_invariant. rewrite gameLoop_player.
  destruct (gameActive s); [|exact H].
  apply updatePlayer_jump_invariant.
  unfold jump_invariant. rewrite frame_clock_player. exact H.
Qed.

Lemma reachable_jump_invariant :
  forall s, reachable s -> jump_invariant s.
Proof.
  apply (reachable_invariant jump_invariant).
  - intros fuel rnd s H. apply onload_fields in H.
    destruct H as (_ & Hp & _). unfold jump_invariant. rewrite Hp.
    cbn. discriminate.
  - apply handleJump_jump_invariant.
  - apply gameLoop_jump_invariant.
Qed.

Lemma step_jump_invariant (i : input) (s : state) :
  jump_invariant s -> jump_invariant (step i s).
Proof.
  intros H. destruct i as [code| | |ts]; cbn [step].
  - destruct code; unfold onKeyDown; [destruct (gameActive s)|]; auto.
    now apply handleJump_jump_invariant.
  - unfold onCanvasTouch. destruct (gameActive s); auto.
    now apply handleJump_jump_invariant.
  - unfold onButtonTouch. destruct (gameActive s); auto.
    now apply handleJump_jump_invariant.
  - now apply gameLoop_jump_invariant.
Qed.

(** C7.  In every reachable state with [isJumping] true, [jumpCount >= 1]:
    the divisor of the flying impulse is not zero and the impulse is finite.
    The invariant ([isJumping] implies [jumpCount >= 1]) is established by
    the initial jump, preserved by every operation and every input event,
    and landing resets [isJumping] to false and [jumpCount] to 0. *)
Theorem flying_divisor_nonzero :
  (forall s, reachable s -> isJumping (player s) = true ->
     (1 <= jumpCount (player s))%nat
     /\ (num_of_nat (jumpCount (player s)) === 0) = false
     /\ is_finite (flyingForce (jumpCount (player s))))
  /\ (forall s, isJumping (player s) = false ->
        (energy s >=? ENERGY_JUMP_COST) = true ->
        isJumping (player (handleJump s)) = true
        /\ jumpCount (player (handleJump s)) = 1%nat)
  /\ (forall s, jump_invariant s ->
        jump_invariant (handleJump s)
        /\ jump_invariant (updatePlayer s)
        /\ jump_invariant (updateObstacles s)
        /\ jump_invariant (updateMelinjos s)
        /\ jump_invariant (updateEnergy s)
        /\ jump_invariant (checkCollisions s)
        /\ forall i, jump_invariant (step i s))
  /\ (forall s,
        let p := player s in
        (py p + (velocityY p + GRAVITY) >=? groundY p) = true ->
        isJumping (player (updatePlayer s)) = false
        /\ jumpCount (player (updatePlayer s)) = 0%nat).
Proof.
  split; [|split; [|split]].
  - intros s Hr Hj. pose proof (reachable_jump_invariant s Hr Hj) as H1.
    split; [exact H1|]. split.
    + unfold num_of_nat. fold (count_Q (jumpCount (player s))).
      cbn [num_eqb]. apply count_Q_pos in H1.
      destruct (Qeqb_spec (count_Q (jumpCount (player s))) 0);
        [lra|reflexivity].
    + rewrite (flyingForce_finite _ H1). eexists. reflexivity.
  - intros s Hj He. destruct (handleJump_accepted s He) as (_ & _ & H1 & H2 & _).
    cbn zeta in H2. rewrite Hj in H2. auto.
  - intros s H.
    split; [now apply handleJump_jump_invariant|].
    split; [now apply updatePlayer_jump_invariant|].
    split; [exact H|]. split; [exact H|].
    split; [unfold jump_invariant; rewrite updateEnergy_player; exact H|].
    split; [unfold jump_invariant; rewrite checkCollisions_player; exact H|].
    intros i. now apply step_jump_invariant.
  - intros s p Hl. destruct (updatePlayer_cases s) as (_ & _ & Hland & _).
    destruct (Hland Hl) as (_ & _ & ? & ?). auto.
Qed.

(** C4.  For every player state, after [updatePlayer] the player's [y] is
    not greater than the ground line
    [CANVAS_HEIGHT - GROUND_HEIGHT - player.height]; when the integrated
    position [y + (velocityY + GRAVITY)] reaches or passes the ground line,
    [y] is the ground line, [velocityY] is 0, [isJumping] is false and
    [jumpCount] is 0; otherwise the player keeps the integrated position and
    velocity, and its jump state. *)
Theorem updatePlayer_ground_clamp (s : state) :
  let p := player s in
  let p' := player (updatePlayer s) in
  (py p' >? groundY p') = false
  /\ pheight p' = pheight p
  /\ ((py p + (velocityY p + GRAVITY) >=? groundY p) = true ->
      py p' = groundY p /\ velocityY p' = Fin 0
      /\ isJumping p' = false /\ jumpCount p' = 0%nat)
  /\ ((py p + (velocityY p + GRAVITY) >=? groundY p) = false ->
      py p' = py p + (velocityY p + GRAVITY)
      /\ velocityY p' = velocityY p + GRAVITY
      /\ isJumping p' = isJumping p /\ jumpCount p' = jumpCount p).
Proof. exact (updatePlayer_cases s). Qed.

Lemma updatePlayer_ground_clamp_witness :
  exists s0 : state,
    onload 46 demo_rnd = Some s0
    /\ (py (player (updatePlayer s0)) = groundY (player s0)
        /\ velocityY (player (updatePlayer s0)) = Fin 0
        /\ isJumping (player (updatePlayer s0)) = false
        /\ jumpCount (player (updatePlayer s0)) = 0%nat)
    /\ (py (player (updatePlayer (handleJump s0)))
        = py (player (handleJump s0))
          + (velocityY (player (handleJump s0)) + GRAVITY)
        /\ velocityY (player (updatePlayer (handleJump s0)))
           = velocityY (player (handleJump s0)) + GRAVITY
        /\ isJumping (player (updatePlayer (handleJump s0)))
           = isJumping (player (handleJump s0))
        /\ jumpCount (player (updatePlayer (handleJump s0)))
           = jumpCount (player (handleJump s0))).
Proof.
  eexists. split; [vm_compute; reflexivity|]. split.
  - apply updatePlayer_ground_clamp. vm_compute; reflexivity.
  - apply updatePlayer_ground_clamp. vm_compute; reflexivity.
Defined.

Lemma jump_request_gate_witness :
  exists s0 : state,
    onload 46 demo_rnd = Some s0
    /\ energy (handleJump s0) = energy s0 - ENERGY_JUMP_COST
    /\ handleJump s0 <> s0
    /\ let s5 := run (repeat (KeyDown Space) 5) s0 in
       (energy s5 <? ENERGY_JUMP_COST) = true /\ onKeyDown Space s5 = s5.
Proof.
  eexists. split; [vm_compute; reflexivity|].
  match goal with |- energy (handleJump ?s) = _ /\ _ =>
    destruct (proj2 (jump_request_gate s)) as (He & _ & _ & _ & Hne & _);
      [vm_compute; reflexivity|]
  end.
  split; [exact He|]. split; [exact Hne|]. cbv zeta.
  split; [vm_compute; reflexivity|].
  match goal with |- onKeyDown Space ?s = _ =>
    destruct (proj1 (jump_request_gate s)) as (_ & Hk & _);
      [vm_compute; reflexivity|]
  end.
  exact Hk.
Defined.

(** C6.  An accepted flying impulse (a jump request while [isJumping], with
    enough energy) sets the velocity to
    [JUMP_FORCE * FLYING_FORCE_MULTIPLIER / jumpCount], at the jump count
    before the increment, and increments the count.  For a count [n >= 1]
    this impulse is [-(7.5 / n)]; its magnitude strictly decreases as the
    count grows, and so does the magnitude of the velocity set by two
    successive accepted flying impulses. *)
Theorem flying_impulse_diminishes :
  (forall s,
     isJumping (player s) = true ->
     (energy s >=? ENERGY_JUMP_COST) = true ->
     velocityY (player (handleJump s))
     = JUMP_FORCE * FLYING_FORCE_MULTIPLIER
       / num_of_nat (jumpCount (player s))
     /\ jumpCount (player (handleJump s)) = S (jumpCount (player s)))
  /\ (forall n, (1 <= n)%nat ->
        exists q : Q,
          flyingForce n = Fin q /\ (q == - (7.5 / count_Q n))%Q)
  /\ (forall m n, (m < n)%nat ->
        (num_abs (flyingForce n) <? num_abs (flyingForce m)) = true)
  /\ (forall s1 s2,
        isJumping (player s1) = true ->
        (energy s1 >=? ENERGY_JUMP_COST) = true ->
        isJumping (player s2) = true ->
        (energy s2 >=? ENERGY_JUMP_COST) = true ->
        jumpCount (player s2) = jumpCount (player (handleJump s1)) ->
        (num_abs (velocityY (player (handleJump s2)))
         <? num_abs (velocityY (player (handleJump s1)))) = true).
Proof.
  assert (Hfly : forall s,
     isJumping (player s) = true ->
     (energy s >=? ENERGY_JUMP_COST) = true ->
     velocityY (player (handleJump s)) = flyingForce (jumpCount (player s))
     /\ jumpCount (player (handleJump s)) = S (jumpCount (player s))).
  { intros s Hj He.
    destruct (handleJump_accepted s He) as (_ & Hv & _ & Hc & _).
    cbn zeta in Hv, Hc. rewrite Hj in Hv, Hc. auto. }
  split; [exact Hfly|]. split; [|split].
  - intros n Hn. rewrite (flyingForce_finite n Hn). eexists.
    split; [reflexivity|]. apply count_Q_pos in Hn. unfold_consts.
    field. lra.
  - exact flyingForce_decreasing.
  - intros s1 s2 Hj1 He1 Hj2 He2 Hc.
    destruct (Hfly s1 Hj1 He1) as (-> & Hc1).
    destruct (Hfly s2 Hj2 He2) as (-> & _).
    rewrite Hc, Hc1. apply flyingForce_decreasing. lia.
Qed.

Lemma flying_impulse_diminishes_witness :
  exists s0 : state,
    onload 46 demo_rnd = Some s0
    /\ let s1 := run [KeyDown Space; AnimationFrame 16] s0 in
       let s2 := run [KeyDown Space; AnimationFrame 32] s1 in
       (num_abs (velocityY (player (handleJump s2)))
        <? num_abs (velocityY (player (handleJump s1)))) = true.
Proof.
  eexists. split; [vm_compute; reflexivity|]. cbv zeta.
  apply (proj2 (proj2 (proj2 flying_impulse_diminishes)));
    vm_compute; reflexivity.
Defined.

Lemma flying_divisor_nonzero_witness :
  exists s0 : state,
    onload 46 demo_rnd = Some s0
    /\ let s := run [KeyDown Space; AnimationFrame 16; KeyDown Space] s0 in
       isJumping (player s) = true
       /\ (1 <= jumpCount (player s))%nat
       /\ is_finite (flyingForce (jumpCount (player s))).
Proof.
  eexists. split; [vm_compute; reflexivity|]. cbv zeta.
  split; [vm_compute; reflexivity|].
  match goal with |- (1 <= jumpCount (player ?s))%nat /\ _ =>
    destruct (proj1 flying_divisor_nonzero s) as (H1 & _ & H3);
      [apply reachable_demo; vm_compute; reflexivity
      |vm_compute; reflexivity|]
  end.
  split; assumption.
Defined.

End JumpFacts.

Module GeneratorFacts.
Import GameJs EnergyFacts JumpFacts.

Lemma totalDistance_value : totalDistance = Fin (5 * 30 * 60).
Proof. reflexivity. Qed.

Lemma generateObstacles_loop_step (rnd : random_source) (fuel k : nat)
    (pos : Q) (acc : list obstacle) :
  draws_in_unit rnd ->
  (pos < 9800)%Q ->
  exists (o : obstacle) (k' : nat) (gap : Q),
    (300 <= gap)%Q /\ (gap < 600)%Q /\ ox o = Fin pos /\
    generateObstacles_loop (S fuel) rnd k totalDistance pos acc =
    generateObstacles_loop fuel rnd (S k') totalDistance (pos + gap)%Q
                           (acc ++ [o]).
Proof.
  intros Hr Hlt. rewrite totalDistance_value.
  cbn [generateObstacles_loop num_add num_ltb num_mul num_floor num_eqb].
  destruct (Qltb_spec pos (5 * 30 * 60 + 800)) as [_|Hn]; [|exfalso; lra].
  destruct (Qeq_bool (inject_Z (Qfloor (rnd k * 2))) 0).
  - eexists. exists (k + 3)%nat. exists (300 + rnd (k + 3)%nat * 300)%Q.
    destruct (Hr (k + 3)%nat).
    split; [lra|]. split; [lra|]. split; [|reflexivity]. reflexivity.
  - eexists. exists (k + 2)%nat. exists (300 + rnd (k + 2)%nat * 300)%Q.
    destruct (Hr (k + 2)%nat).
    split; [lra|]. split; [lra|]. split; [|reflexivity]. reflexivity.
Qed.

Lemma generateObstacles_loop_exit (rnd : random_source) (fuel k : nat)
    (pos : Q) (acc : list obstacle) :
  (9800 <= pos)%Q ->
  generateObstacles_loop (S fuel) rnd k totalDistance pos acc = Some (acc, k).
Proof.
  intros Hge. rewrite totalDistance_value.
  cbn [generateObstacles_loop num_add num_ltb].
  destruct (Qltb_spec pos (5 * 30 * 60 + 800)) as [Hn|_]; [exfalso; lra|].
  reflexivity.
Qed.

Lemma generateObstacles_loop_total (rnd : random_source) :
  draws_in_unit rnd ->
  forall (f k : nat) (pos : Q) (acc : list obstacle),
    (800 <= pos)%Q ->
    (9800 - pos <= 300 * count_Q f)%Q ->
    Forall (fun o => x_in_span (ox o)) acc ->
    exists (l : list obstacle) (k' : nat),
      generateObstacles_loop (S f) rnd k totalDistance pos acc = Some (l, k')
      /\ Forall (fun o => x_in_span (ox o)) l.
Proof.
  intros Hr. induction f as [|f IH]; intros k pos acc H0 Hm Hacc.
  - change (count_Q 0) with 0%Q in Hm.
    exists acc, k. split; [|assumption].
    apply generateObstacles_loop_exit. lra.
  - destruct (Qlt_le_dec pos 9800) as [Hlt|Hge].
    + destruct (generateObstacles_loop_step rnd (S f) k pos acc Hr Hlt)
        as (o & k' & gap & Hg & _ & Hx & ->).
      apply IH.
      * lra.
      * rewrite count_Q_succ in Hm. lra.
      * apply Forall_app. split; [assumption|].
        constructor; [|constructor]. exists pos. auto.
    + exists acc, k. split; [|assumption].
      now apply generateObstacles_loop_exit.
Qed.

Lemma generateObstacles_loop_fuel (rnd : random_source) :
  forall (f f' k : nat) (td pos : num) (acc : list obstacle) r,
    (f <= f')%nat ->
    generateObstacles_loop f rnd k td pos acc = Some r ->
    generateObstacles_loop f' rnd k td pos acc = Some r.
Proof.
  induction f as [|f IH]; intros f' k td pos acc r Hle H; [discriminate|].
  destruct f' as [|f']; [lia|].
  cbn [generateObstacles_loop] in *.
  destruct (pos <? td + 800); [|exact H].
  destruct (num_floor (rnd k * 2) === 0); (apply (IH f'); [lia|exact H]).
Qed.

Lemma generateMelinjos_loop_step (rnd : random_source) (fuel k : nat)
    (pos : Q) (acc : list melinjo) :
  draws_in_unit rnd ->
  (pos < 9800)%Q ->
  exists (m : melinjo) (gap : Q),
    (200 <= gap)%Q /\ (gap < 600)%Q /\ mx m = Fin pos /\
    generateMelinjos_loop (S fuel) rnd k totalDistance pos acc =
    generateMelinjos_loop fuel rnd (k + 2)%nat totalDistance (pos + gap)%Q
                          (acc ++ [m]).
Proof.
  intros Hr Hlt. rewrite totalDistance_value.
  cbn [generateMelinjos_loop num_add num_ltb num_mul].
  destruct (Qltb_spec pos (5 * 30 * 60 + 800)) as [_|Hn]; [|exfalso; lra].
  eexists. exists (200 + rnd (k + 1)%nat * 400)%Q.
  destruct (Hr (k + 1)%nat).
  split; [lra|]. split; [lra|]. split; [|reflexivity]. reflexivity.
Qed.

Lemma generateMelinjos_loop_exit (rnd : random_source) (fuel k : nat)
    (pos : Q) (acc : list melinjo) :
  (9800 <= pos)%Q ->
  generateMelinjos_loop (S fuel) rnd k totalDistance pos acc = Some (acc, k).
Proof.
  intros Hge. rewrite totalDistance_value.
  cbn [generateMelinjos_loop num_add num_ltb].
  destruct (Qltb_spec pos (5 * 30 * 60 + 800)) as [Hn|_]; [exfalso; lra|].
  reflexivity.
Qed.

Lemma generateMelinjos_loop_total (rnd : random_source) :
  draws_in_unit rnd ->
  forall (f k : nat) (pos : Q) (acc : list melinjo),
    (800 <= pos)%Q ->
    (9800 - pos <= 200 * count_Q f)%Q ->
    Forall (fun m => x_in_span (mx m)) acc ->
    exists (l : list melinjo) (k' : nat),
      generateMelinjos_loop (S f) rnd k totalDistance pos acc = Some (l, k')
      /\ Forall (fun m => x_in_span (mx m)) l.
Proof.
  intros Hr. induction f as [|f IH]; intros k pos acc H0 Hm Hacc.
  - change (count_Q 0) with 0%Q in Hm.
    exists acc, k. split; [|assumption].
    apply generateMelinjos_loop_exit. lra.
  - destruct (Qlt_le_dec pos 9800) as [Hlt|Hge].
    + destruct (generateMelinjos_loop_step rnd (S f) k pos acc Hr Hlt)
        as (m & gap & Hg & _ & Hx & ->).
      apply IH.
      * lra.
      * rewrite count_Q_succ in Hm. lra.
      * apply Forall_app. split; [assumption|].
        constructor; [|constructor]. exists pos. auto.
    + exists acc, k. split; [|assumption].
      now apply generateMelinjos_loop_exit.
Qed.

Lemma generateMelinjos_loop_fuel (rnd : random_source) :
  forall (f f' k : nat) (td pos : num) (acc : list melinjo) r,
    (f <= f')%nat ->
    generateMelinjos_loop f rnd k td pos acc = Some r ->
    generateMelinjos_loop f' rnd k td pos acc = Some r.
Proof.
  induction f as [|f IH]; intros f' k td pos acc r Hle H; [discriminate|].
  destruct f' as [|f']; [lia|].
  cbn [generateMelinjos_loop] in *.
  destruct (pos <? td + 800); [|exact H].
  apply (IH f'); [lia|exact H].
Qed.

(** With 46 units of fuel or more, [onload] returns, and always the same
    state. *)
Lemma onload_total (rnd : random_source) :
  draws_in_unit rnd ->
  exists s : state,
    (forall fuel, (46 <= fuel)%nat -> onload fuel rnd = Some s)
    /\ Forall (fun o => x_in_span (ox o)) (obstacles s)
    /\ Forall (fun m => x_in_span (mx m)) (melinjos s).
Proof.
  intros Hr.
  destruct (generateObstacles_loop_total rnd Hr 30 0 800 [])
    as (lo & k1 & Ho & Fo);
    [lra | change (count_Q 30) with 30%Q; lra | constructor |].
  destruct (generateMelinjos_loop_total rnd Hr 45 k1 800 [])
    as (lm & k2 & Hm & Fm);
    [lra | change (count_Q 45) with 45%Q; lra | constructor |].
  exists (set_melinjos lm
            (set_obstacles lo
               (mkState
                  (mkPlayer 100 (CANVAS_HEIGHT - GROUND_HEIGHT - 40) 50 40 0
                            false 0)
                  [] [] 0 true 0 ENERGY_MAX))).
  split; [|split; [exact Fo|exact Fm]].
  intros fuel Hf. unfold onload, generateObstacles, generateMelinjos.
  fold totalDistance.
  rewrite (generateObstacles_loop_fuel rnd 31 fuel _ _ _ _ _ ltac:(lia) Ho).
  rewrite (generateMelinjos_loop_fuel rnd 46 fuel _ _ _ _ _ ltac:(lia) Hm).
  reflexivity.
Qed.

(** C8.  With draws of [Math.random] in [0, 1): the loop bound
    [totalDistance + 800] is 9800; an iteration of the obstacle loop moves
    the placement position forward by at least 300, one of the pickup loop
    by at least 200; [onload] returns, with the same state for every amount
    of fuel from 46 on; and every generated obstacle and pickup has its
    initial [x] in [800, 9800 + 800] (indeed below 9800). *)
Theorem level_generation_terminates (rnd : random_source) :
  draws_in_unit rnd ->
  (exists q : Q, totalDistance + 800 = Fin q /\ (q == 9800)%Q)
  /\ (forall (fuel k : nat) (pos : Q) (acc : list obstacle),
        (pos < 9800)%Q ->
        exists (o : obstacle) (k' : nat) (gap : Q),
          (300 <= gap)%Q /\ ox o = Fin pos /\
          generateObstacles_loop (S fuel) rnd k totalDistance pos acc =
          generateObstacles_loop fuel rnd (S k') totalDistance
                                 (pos + gap)%Q (acc ++ [o]))
  /\ (forall (fuel k : nat) (pos : Q) (acc : list melinjo),
        (pos < 9800)%Q ->
        exists (m : melinjo) (gap : Q),
          (200 <= gap)%Q /\ mx m = Fin pos /\
          generateMelinjos_loop (S fuel) rnd k totalDistance pos acc =
          generateMelinjos_loop fuel rnd (k + 2)%nat totalDistance
                                (pos + gap)%Q (acc ++ [m]))
  /\ exists s : state,
       (forall fuel, (46 <= fuel)%nat -> onload fuel rnd = Some s)
       /\ Forall (fun o => exists x : Q,
                    ox o = Fin x /\ (800 <= x)%Q /\ (x <= 9800 + 800)%Q
                    /\ (x < 9800)%Q) (obstacles s)
       /\ Forall (fun m => exists x : Q,
                    mx m = Fin x /\ (800 <= x)%Q /\ (x <= 9800 + 800)%Q
                    /\ (x < 9800)%Q) (melinjos s).
Proof.
  intros Hr. split; [|split; [|split]].
  - rewrite totalDistance_value. eexists. split; [reflexivity|]. lra.
  - intros fuel k pos acc Hlt.
    destruct (generateObstacles_loop_step rnd fuel k pos acc Hr Hlt)
      as (o & k' & gap & Hg & _ & Hx & Heq).
    exists o, k', gap. auto.
  - intros fuel k pos acc Hlt.
    destruct (generateMelinjos_loop_step rnd fuel k pos acc Hr Hlt)
      as (m & gap & Hg & _ & Hx & Heq).
    exists m, gap. auto.
  - destruct (onload_total rnd Hr) as (s & Hs & Fo & Fm).
    exists s. split; [exact Hs|]. split.
    + eapply Forall_impl; [|exact Fo]. intros o (x & Hx & H0 & H1).
      exists x. repeat split; try assumption; lra.
    + eapply Forall_impl; [|exact Fm]. intros m (x & Hx & H0 & H1).
      exists x. repeat split; try assumption; lra.
Qed.

Lemma level_generation_terminates_witness :
  exists s : state,
    onload 46 demo_rnd = Some s
    /\ List.length (obstacles s) = 20%nat
    /\ List.length (melinjos s) = 23%nat
    /\ Forall (fun o => exists x : Q,
                 ox o = Fin x /\ (800 <= x)%Q /\ (x <= 9800 + 800)%Q
                 /\ (x < 9800)%Q) (obstacles s).
Proof.
  destruct (level_generation_terminates demo_rnd demo_rnd_in_unit)
    as (_ & _ & _ & s & Hs & Fo & _).
  exists s. split; [apply Hs; lia|].
  assert (H : onload 46 demo_rnd = Some s) by (apply Hs; lia).
  vm_compute in H. injection H as <-.
  split; [reflexivity|]. split; [reflexivity|]. exact Fo.
Defined.

End GeneratorFacts.

Module FrameFacts.
Import GameJs EnergyFacts JumpFacts.

Lemma updateEnergy_clock s :
  gameTime (updateEnergy s) = gameTime s
  /\ gameActive (updateEnergy s) = gameActive s.
Proof.
  unfold updateEnergy.
  repeat match goal with |- context [if ?c then _ else _] => destruct c end;
    split; reflexivity.
Qed.

Lemma checkCollisions_gameTime s : gameTime (checkCollisions s) = gameTime s.
Proof.
  unfold checkCollisions.
  destruct (checkObstacles _ _) as [obs hit].
  destruct hit; [reflexivity|].
  destruct (checkMelinjos _ _ _) as [mels e].
  match goal with |- context [if ?c then _ else _] => destruct c end;
    reflexivity.
Qed.

Lemma checkCollisions_stays_ended s :
  gameActive s = false -> gameActive (checkCollisions s) = false.
Proof.
  intros H. unfold checkCollisions.
  destruct (checkObstacles _ _) as [obs hit].
  destruct hit; [reflexivity|].
  destruct (checkMelinjos _ _ _) as [mels e].
  match goal with |- context [if ?c then _ else _] => destruct c end;
    [reflexivity|exact H].
Qed.

Lemma frame_updates_gameTime s : gameTime (frame_updates s) = gameTime s.
Proof.
  unfold frame_updates. rewrite checkCollisions_gameTime.
  rewrite (proj1 (updateEnergy_clock _)). reflexivity.
Qed.

Lemma frame_updates_stays_ended s :
  gameActive s = false -> gameActive (frame_updates s) = false.
Proof.
  intros H. unfold frame_updates. apply checkCollisions_stays_ended.
  rewrite (proj2 (updateEnergy_clock _)). exact H.
Qed.

Lemma frame_clock_gameTime ts s :
  gameTime (frame_clock ts s) = gameTime s + deltaTime ts s / 1000.
Proof.
  unfold frame_clock, deltaTime.
  match goal with |- context [if ?c then _ else _] => destruct c end;
    reflexivity.
Qed.

Lemma frame_clock_gameActive ts s :
  gameActive (frame_clock ts s) =
  if gameTime s + deltaTime ts s / 1000 >=? GAME_DURATION then false
  else gameActive s.
Proof.
  unfold frame_clock, deltaTime. cbn [gameTime set_gameTime set_lastTimestamp lastTimestamp].
  match goal with |- context [if ?c then _ else _] => destruct c end;
    reflexivity.
Qed.

Lemma gameLoop_picture ts s :
  snd (gameLoop ts s) = render (fst (gameLoop ts s)).
Proof. reflexivity. Qed.

Lemma gameLoop_gameTime ts s :
  gameTime (fst (gameLoop ts s)) =
  if gameActive s then gameTime s + deltaTime ts s / 1000 else gameTime s.
Proof.
  rewrite gameLoop_state. destruct (gameActive s); [|reflexivity].
  rewrite frame_updates_gameTime. apply frame_clock_gameTime.
Qed.

Lemma gameLoop_overlay (ts : Q) (s : state) :
  let s' := fst (gameLoop ts s) in
  let pic := snd (gameLoop ts s) in
  (gameActive s = true ->
   (gameTime s + deltaTime ts s / 1000 >=? GAME_DURATION) = true ->
   gameActive s' = false
   /\ pic_overlay pic = ["Level Complete!"%string; "Tap to Restart"%string])
  /\ (gameActive s' = false ->
      pic_overlay pic =
      [ (if gameTime s' >=? GAME_DURATION
         then "Level Complete!" else "Game Over")%string;
        "Tap to Restart"%string ])
  /\ (gameActive s' = true -> pic_overlay pic = []).
Proof.
  cbn zeta. rewrite gameLoop_picture. unfold render, drawGameOver.
  cbn [pic_overlay]. split; [|split].
  - intros Ha Ht.
    assert (Hend : gameActive (fst (gameLoop ts s)) = false).
    { rewrite gameLoop_state, Ha. apply frame_updates_stays_ended.
      rewrite frame_clock_gameActive, Ht. reflexivity. }
    split; [exact Hend|].
    rewrite Hend, gameLoop_gameTime, Ha, Ht. reflexivity.
  - intros ->. reflexivity.
  - intros ->. reflexivity.
Qed.

(** C3.  If a frame of an active game brings the elapsed time to
    [GAME_DURATION] or more, the game is over after the frame and the end
    screen reads "Level Complete!", whatever the collision checks of that
    frame find.  In general the headline of the end screen depends only on
    whether [gameTime >= GAME_DURATION], and nothing is overlaid while the
    game is active. *)
Theorem time_up_reports_win (ts : Q) (s : state) :
  let s' := fst (gameLoop ts s) in
  let pic := snd (gameLoop ts s) in
  (gameActive s = true ->
   (gameTime s + deltaTime ts s / 1000 >=? GAME_DURATION) = true ->
   gameActive s' = false
   /\ pic_overlay pic = ["Level Complete!"%string; "Tap to Restart"%string])
  /\ (gameActive s' = false ->
      pic_overlay pic =
      [ (if gameTime s' >=? GAME_DURATION
         then "Level Complete!" else "Game Over")%string;
        "Tap to Restart"%string ])
  /\ (gameActive s' = true -> pic_overlay pic = []).
Proof. exact (gameLoop_overlay ts s). Qed.

Lemma time_up_reports_win_witness :
  exists s0 : state,
    onload 46 demo_rnd = Some s0
    /\ let s := run (demo_frames 130) s0 in
       gameActive s = true
       /\ snd (checkObstacles
                 (player (updatePlayer (frame_clock 40000 s)))
                 (obstacles (updateObstacles (frame_clock 40000 s)))) = true
       /\ gameActive (fst (gameLoop 40000 s)) = false
       /\ pic_overlay (snd (gameLoop 40000 s))
          = ["Level Complete!"%string; "Tap to Restart"%string].
Proof.
  eexists. split; [vm_compute; reflexivity|]. cbv zeta.
  split; [vm_compute; reflexivity|]. split; [vm_compute; reflexivity|].
  match goal with |- gameActive (fst (gameLoop ?ts ?s)) = _ /\ _ =>
    apply (proj1 (time_up_reports_win ts s)); vm_compute; reflexivity
  end.
Defined.

(** C10.  On the first frame after [onload], [lastTimestamp] and [gameTime]
    are 0, so the delta time equals the timestamp of the host and the
    elapsed time becomes [timestamp / 1000]; for a first timestamp of 30000
    ms or more, the game is over after that frame, with the end screen
    reading "Level Complete!". *)
Theorem first_frame_delta (fuel : nat) (rnd : random_source) (s0 : state)
    (ts : Q) :
  onload fuel rnd = Some s0 ->
  let s1 := fst (gameLoop ts s0) in
  lastTimestamp s0 = Fin 0
  /\ gameTime s0 = Fin 0
  /\ (exists d : Q, deltaTime ts s0 = Fin d /\ (d == ts)%Q)
  /\ (exists g : Q, gameTime s1 = Fin g /\ (g == ts / 1000)%Q)
  /\ ((30000 <= ts)%Q ->
      gameActive s1 = false
      /\ pic_overlay (snd (gameLoop ts s0))
         = ["Level Complete!"%string; "Tap to Restart"%string]).
Proof.
  intros H. apply onload_fields in H.
  destruct H as (_ & _ & Ht & Hl & Ha). cbn zeta.
  assert (Hd : deltaTime ts s0 = Fin (ts + - 0)).
  { unfold deltaTime. rewrite Hl. reflexivity. }
  assert (Hg : gameTime s0 + deltaTime ts s0 / 1000
               = Fin (0 + (ts + - 0) / 1000)).
  { rewrite Ht, Hd. reflexivity. }
  split; [exact Hl|]. split; [exact Ht|].
  split; [exists (ts + - 0)%Q; split; [exact Hd|lra]|].
  split.
  - rewrite gameLoop_gameTime, Ha, Hg. eexists. split; [reflexivity|].
    field.
  - intros Hts. apply (proj1 (gameLoop_overlay ts s0) Ha).
    rewrite Hg. unfold num_geb, num_leb, GAME_DURATION.
    destruct (Qleb_spec 30 (0 + (ts + - 0) / 1000)) as [_|Hn];
      [reflexivity|]. exfalso. apply Hn.
    assert (E : (0 + (ts + - 0) / 1000 == ts * (1 # 1000))%Q) by field.
    rewrite E. lra.
Qed.

Lemma first_frame_delta_witness :
  exists s0 : state,
    onload 46 demo_rnd = Some s0
    /\ gameActive (fst (gameLoop 30000 s0)) = false
    /\ pic_overlay (snd (gameLoop 30000 s0))
       = ["Level Complete!"%string; "Tap to Restart"%string].
Proof.
  eexists. split; [vm_compute; reflexivity|].
  match goal with |- gameActive (fst (gameLoop ?ts ?s)) = _ /\ _ =>
    apply (first_frame_delta 46 demo_rnd s ts);
      [vm_compute; reflexivity | lra]
  end.
Defined.

End FrameFacts.

Module EndedFacts.
Import GameJs FrameTrace EnergyFacts JumpFacts FrameFacts.



(** *** Lists of recorded states *)





(** *** The trace of [checkCollisions] *)






(** *** The trace of a frame *)









End EndedFacts.

Module VariantFacts.

(** The functions of the two variants, compared one by one. *)
Lemma updatePlayer_agree : Part000.updatePlayer = GameJs.updatePlayer.
Proof. reflexivity. Qed.

Lemma generateObstacles_agree :
  Part000.generateObstacles = GameJs.generateObstacles.
Proof. reflexivity. Qed.

Lemma generateMelinjos_agree :
  Part000.generateMelinjos = GameJs.generateMelinjos.
Proof. reflexivity. Qed.

Lemma onload_agree : Part000.onload = GameJs.onload.
Proof.
  unfold Part000.onload, GameJs.onload.
  rewrite generateObstacles_agree, generateMelinjos_agree. reflexivity.
Qed.

Lemma updateObstacles_agree : Part000.updateObstacles = GameJs.updateObstacles.
Proof. reflexivity. Qed.

Lemma updateMelinjos_agree : Part000.updateMelinjos = GameJs.updateMelinjos.
Proof. reflexivity. Qed.

Lemma updateEnergy_agree : Part000.updateEnergy = GameJs.updateEnergy.
Proof. reflexivity. Qed.

Lemma checkObstacles_agree : Part000.checkObstacles = GameJs.checkObstacles.
Proof. reflexivity. Qed.

Lemma checkMelinjos_agree : Part000.checkMelinjos = GameJs.checkMelinjos.
Proof. reflexivity. Qed.

Lemma checkCollisions_agree : Part000.checkCollisions = GameJs.checkCollisions.
Proof.
  unfold Part000.checkCollisions, GameJs.checkCollisions.
  rewrite checkObstacles_agree, checkMelinjos_agree. reflexivity.
Qed.

Lemma onKeyDown_agree (code : key) (s : state) :
  Part000.onKeyDown code s = GameJs.onKeyDown code s.
Proof. destruct code; reflexivity. Qed.

Lemma gameLoop_state_agree (ts : Q) (s : state) :
  fst (Part000.gameLoop ts s) = fst (GameJs.gameLoop ts s).
Proof.
  unfold Part000.gameLoop, GameJs.gameLoop. cbn [fst].
  rewrite updatePlayer_agree, updateObstacles_agree, updateMelinjos_agree,
    updateEnergy_agree, checkCollisions_agree.
  reflexivity.
Qed.

Lemma gameLoop_headline_agree (ts : Q) (s : state) :
  hd_error (pic_overlay (snd (Part000.gameLoop ts s)))
  = hd_error (pic_overlay (snd (GameJs.gameLoop ts s))).
Proof.
  change (snd (Part000.gameLoop ts s))
    with (Part000.render (fst (Part000.gameLoop ts s))).
  change (snd (GameJs.gameLoop ts s))
    with (GameJs.render (fst (GameJs.gameLoop ts s))).
  rewrite gameLoop_state_agree.
  unfold Part000.render, GameJs.render. cbn [pic_overlay].
  destruct (gameActive (fst (GameJs.gameLoop ts s))); reflexivity.
Qed.

Lemma step_agree (i : input) (s : state) :
  is_touch i = false -> Part000.step i s = GameJs.step i s.
Proof.
  destruct i as [code| | |ts]; cbn [is_touch]; try discriminate; intros _.
  - apply onKeyDown_agree.
  - apply gameLoop_state_agree.
Qed.

Lemma step_touch_ignored (i : input) (s : state) :
  is_touch i = true -> Part000.step i s = s.
Proof.
  destruct i; cbn [is_touch]; try discriminate; reflexivity.
Qed.

Lemma run_agree (l : list input) :
  forall s,
    Part000.run l s = GameJs.run (filter (fun i => negb (is_touch i)) l) s.
Proof.
  induction l as [|i l IH]; intros s; [reflexivity|].
  change (Part000.run (i :: l) s) with (Part000.run l (Part000.step i s)).
  cbn [filter]. destruct (is_touch i) eqn:E; cbn [negb].
  - rewrite (step_touch_ignored i s E). apply IH.
  - change (GameJs.run (i :: ?l') s) with (GameJs.run l' (GameJs.step i s)).
    rewrite (step_agree i s E). apply IH.
Qed.

Lemma reachable_agree (s : state) :
  Part000.reachable s -> GameJs.reachable s.
Proof.
  induction 1 as [fuel rnd s Hr H|i s H IH].
  - exact (GameJs.reachable_onload fuel rnd s Hr H).
  - destruct (is_touch i) eqn:E.
    + rewrite (step_touch_ignored i s E). exact IH.
    + rewrite (step_agree i s E). now apply GameJs.reachable_step.
Qed.

(** C9.  The two variants agree: the key listener (jump handling), the
    physics update, the generators and [onload], scrolling, the energy
    update, the collision checks, and the state and end-screen headline
    after a frame are equal on every state and input; a run of the
    keyboard-only variant is the run of [src/game.js] on the same inputs
    without the touch events (which [src/game.js] handles as it handles the
    space key); every state the keyboard-only variant reaches is reached by
    [src/game.js]. *)
Theorem variants_agree :
  (forall code s, Part000.onKeyDown code s = GameJs.onKeyDown code s)
  /\ (forall s, GameJs.onCanvasTouch s = Part000.onKeyDown Space s
                /\ GameJs.onButtonTouch s = Part000.onKeyDown Space s)
  /\ (forall s, Part000.updatePlayer s = GameJs.updatePlayer s)
  /\ (forall fuel rnd k s,
        Part000.generateObstacles fuel rnd k s
        = GameJs.generateObstacles fuel rnd k s)
  /\ (forall fuel rnd k s,
        Part000.generateMelinjos fuel rnd k s
        = GameJs.generateMelinjos fuel rnd k s)
  /\ (forall fuel rnd, Part000.onload fuel rnd = GameJs.onload fuel rnd)
  /\ (forall s, Part000.updateObstacles s = GameJs.updateObstacles s)
  /\ (forall s, Part000.updateMelinjos s = GameJs.updateMelinjos s)
  /\ (forall s, Part000.updateEnergy s = GameJs.updateEnergy s)
  /\ (forall s, Part000.checkCollisions s = GameJs.checkCollisions s)
  /\ (forall ts s,
        fst (Part000.gameLoop ts s) = fst (GameJs.gameLoop ts s)
        /\ hd_error (pic_overlay (snd (Part000.gameLoop ts s)))
           = hd_error (pic_overlay (snd (GameJs.gameLoop ts s))))
  /\ (forall l s,
        Part000.run l s
        = GameJs.run (filter (fun i => negb (is_touch i)) l) s)
  /\ (forall s, Part000.reachable s -> GameJs.reachable s).
Proof.
  repeat match goal with |- _ /\ _ => split end.
  - exact onKeyDown_agree.
  - intros s. split; symmetry; apply (onKeyDown_agree Space).
  - now rewrite updatePlayer_agree.
  - now rewrite generateObstacles_agree.
  - now rewrite generateMelinjos_agree.
  - now rewrite onload_agree.
  - now rewrite updateObstacles_agree.
  - now rewrite updateMelinjos_agree.
  - now rewrite updateEnergy_agree.
  - now rewrite checkCollisions_agree.
  - intros ts s. split;
      [apply gameLoop_state_agree|apply gameLoop_headline_agree].
  - intros l s. apply run_agree.
  - apply reachable_agree.
Qed.

Lemma variants_agree_witness :
  exists s0 : state,
    Part000.onload 46 demo_rnd = Some s0
    /\ Part000.run [KeyDown Space; TouchCanvas; AnimationFrame 16] s0
       = GameJs.run [KeyDown Space; AnimationFrame 16] s0
    /\ GameJs.reachable
         (Part000.run [KeyDown Space; TouchCanvas; AnimationFrame 16] s0).
Proof.
  destruct variants_agree
    as (_ & _ & _ & _ & _ & _ & _ & _ & _ & _ & _ & Hrun & Hreach).
  eexists. split; [vm_compute; reflexivity|]. split.
  - apply Hrun.
  - apply Hreach. unfold Part000.run. cbn [fold_left].
    repeat apply Part000.reachable_step.
    apply (Part000.reachable_onload 46 demo_rnd);
      [exact EnergyFacts.demo_rnd_in_unit | vm_compute; reflexivity].
Defined.

End VariantFacts.

(** * Further properties of [src/game.js] *)

Module CollisionFacts.
Import GameJs GameJsMore EnergyFacts JumpFacts.

Lemma checkObstacles_hit (p : Player) (l : list obstacle) :
  snd (checkObstacles p l) = existsb (obstacle_hit p) l.
Proof.
  induction l as [|o l IH]; [reflexivity|].
  cbn [checkObstacles existsb]. unfold obstacle_hit at 1.
  destruct (negb (passed o) && (px p <? ox o + owidth o)
            && (px p + pwidth p >? ox o) && (py p <? oy o + oheight o)
            && (py p + pheight p >? oy o)); [reflexivity|].
  destruct (checkObstacles p l) as [rest hit]. exact IH.
Qed.

Lemma checkObstacles_no_hit (p : Player) (l : list obstacle) :
  existsb (obstacle_hit p) l = false ->
  fst (checkObstacles p l) = map (mark_passed p) l.
Proof.
  induction l as [|o l IH]; [reflexivity|].
  cbn [checkObstacles existsb map]. intros H.
  apply orb_false_iff in H. destruct H as (Ho & Hl).
  unfold obstacle_hit in Ho. rewrite Ho.
  specialize (IH Hl). destruct (checkObstacles p l) as [rest hit].
  cbn [fst] in *. rewrite IH. reflexivity.
Qed.

Lemma checkObstacles_first_hit (p : Player) (l : list obstacle) :
  existsb (obstacle_hit p) l = true ->
  exists (l1 : list obstacle) (o : obstacle) (l2 : list obstacle),
    l = l1 ++ o :: l2
    /\ Forall (fun o' => obstacle_hit p o' = false) l1
    /\ obstacle_hit p o = true
    /\ fst (checkObstacles p l) = map (mark_passed p) l1 ++ o :: l2.
Proof.
  induction l as [|o l IH]; [discriminate|].
  cbn [checkObstacles existsb]. intros H.
  destruct (obstacle_hit p o) eqn:Ho.
  - exists [], o, l. pose proof Ho as Ho'. unfold obstacle_hit in Ho'.
    rewrite Ho'. split; [reflexivity|]. split; [constructor|].
    split; [exact Ho|reflexivity].
  - cbn [orb] in H. destruct (IH H) as (l1 & o1 & l2 & -> & F & H1 & E).
    exists (o :: l1), o1, l2.
    pose proof Ho as Ho'. unfold obstacle_hit in Ho'. rewrite Ho'.
    destruct (checkObstacles p (l1 ++ o1 :: l2)) as [rest hit].
    cbn [fst] in *. rewrite E.
    split; [reflexivity|]. split; [constructor; assumption|].
    split; [exact H1|]. cbn [map app]. unfold mark_passed at 2.
    unfold obstacle_behind. reflexivity.
Qed.

Lemma checkCollisions_cases (s : state) :
  let p := player s in
  (existsb (obstacle_hit p) (obstacles s) = true ->
   exists (l1 : list obstacle) (o : obstacle) (l2 : list obstacle),
     obstacles s = l1 ++ o :: l2
     /\ Forall (fun o' => obstacle_hit p o' = false) l1
     /\ obstacle_hit p o = true
     /\ checkCollisions s
        = set_gameActive false
            (set_obstacles (map (mark_passed p) l1 ++ o :: l2) s))
  /\ (existsb (obstacle_hit p) (obstacles s) = false ->
      checkCollisions s
      = let '(mels, e) := checkMelinjos p (melinjos s) (energy s) in
        let s' := set_energy e
                    (set_melinjos mels
                       (set_obstacles (map (mark_passed p) (obstacles s)) s)) in
        if py p >? CANVAS_HEIGHT then set_gameActive false s' else s').
Proof.
  cbn zeta. split; intros H.
  - destruct (checkObstacles_first_hit _ _ H) as (l1 & o & l2 & E & F & Ho & Ef).
    exists l1, o, l2. repeat (split; [assumption|]).
    unfold checkCollisions.
    pose proof (checkObstacles_hit (player s) (obstacles s)) as Hh.
    rewrite H in Hh.
    destruct (checkObstacles (player s) (obstacles s)) as [obs hit].
    cbn [fst snd] in *. subst. reflexivity.
  - unfold checkCollisions.
    pose proof (checkObstacles_hit (player s) (obstacles s)) as Hh.
    pose proof (checkObstacles_no_hit _ _ H) as Ef.
    rewrite H in Hh.
    destruct (checkObstacles (player s) (obstacles s)) as [obs hit].
    cbn [fst snd] in *. subst. reflexivity.
Qed.

(** X1.  In an active game, [checkCollisions] leaves the game active exactly
    when no obstacle that is not yet passed strictly overlaps the player and
    the player is not below the canvas. *)
Theorem collision_ends_game (s : state) :
  gameActive s = true ->
  gameActive (checkCollisions s)
  = negb (existsb (obstacle_hit (player s)) (obstacles s)
          || (py (player s) >? CANVAS_HEIGHT)).
Proof.
  intros Ha. destruct (checkCollisions_cases s) as (Hhit & Hno).
  cbn zeta in Hhit, Hno.
  destruct (existsb (obstacle_hit (player s)) (obstacles s)).
  - destruct (Hhit eq_refl) as (l1 & o & l2 & _ & _ & _ & ->). reflexivity.
  - rewrite (Hno eq_refl).
    destruct (checkMelinjos _ _ _) as [mels e]. cbn [orb].
    destruct (py (player s) >? CANVAS_HEIGHT); cbn; [reflexivity|exact Ha].
Qed.

Lemma collision_ends_game_witness :
  exists s0 : state,
    onload 46 demo_rnd = Some s0
    /\ gameActive (checkCollisions s0) = true
    /\ (let s := updateObstacles (run (demo_frames 130) s0) in
        gameActive s = true
        /\ existsb (obstacle_hit (player s)) (obstacles s) = true
        /\ gameActive (checkCollisions s) = false).
Proof.
  eexists. split; [vm_compute; reflexivity|]. split.
  - rewrite collision_ends_game; vm_compute; reflexivity.
  - cbv zeta. split; [vm_compute; reflexivity|].
    split; [vm_compute; reflexivity|].
    rewrite collision_ends_game; vm_compute; reflexivity.
Defined.

(** X2.  When some obstacle is hit, the scan stops at the first one: the
    obstacles before it are marked as passed where they are behind the
    player, the hit obstacle and all later ones are left as they were, no
    pickup is collected, the energy, the player and the clock are unchanged,
    and the game is over. *)
Theorem first_hit_stops_scan (s : state) :
  existsb (obstacle_hit (player s)) (obstacles s) = true ->
  exists (l1 : list obstacle) (o : obstacle) (l2 : list obstacle),
    obstacles s = l1 ++ o :: l2
    /\ Forall (fun o' => obstacle_hit (player s) o' = false) l1
    /\ obstacle_hit (player s) o = true
    /\ obstacles (checkCollisions s)
       = map (mark_passed (player s)) l1 ++ o :: l2
    /\ melinjos (checkCollisions s) = melinjos s
    /\ energy (checkCollisions s) = energy s
    /\ player (checkCollisions s) = player s
    /\ gameTime (checkCollisions s) = gameTime s
    /\ gameActive (checkCollisions s) = false.
Proof.
  intros H. destruct (proj1 (checkCollisions_cases s) H)
    as (l1 & o & l2 & E & F & Ho & ->).
  exists l1, o, l2. repeat split; assumption.
Qed.

Lemma first_hit_stops_scan_witness :
  exists s0 : state,
    onload 46 demo_rnd = Some s0
    /\ let s := updateObstacles (run (demo_frames 130) s0) in
       melinjos (checkCollisions s) = melinjos s
       /\ gameActive (checkCollisions s) = false.
Proof.
  eexists. split; [vm_compute; reflexivity|]. cbv zeta.
  match goal with |- melinjos (checkCollisions ?s) = _ /\ _ =>
    destruct (first_hit_stops_scan s)
      as (l1 & o & l2 & _ & _ & _ & _ & Hm & _ & _ & _ & Ha);
      [vm_compute; reflexivity|]
  end.
  split; assumption.
Defined.

(** X3.  Boxes that only touch do not collide: when an edge of a finite box
    lies exactly on the opposite edge of the player's box, the test of the
    obstacle loop and the test of the pickup loop are both false. *)
Theorem touching_edges_do_not_collide (p : Player) (o : obstacle)
    (a b w h x y ow oh : Q) :
  px p = Fin a -> py p = Fin b -> pwidth p = Fin w -> pheight p = Fin h ->
  ox o = Fin x -> oy o = Fin y -> owidth o = Fin ow -> oheight o = Fin oh ->
  (a + w == x \/ x + ow == a \/ b + h == y \/ y + oh == b)%Q ->
  obstacle_hit p o = false
  /\ forall m : melinjo,
       mx m = Fin x -> my m = Fin y -> mwidth m = Fin ow ->
       mheight m = Fin oh ->
       melinjo_hit p m = false.
Proof.
  intros Hpx Hpy Hpw Hph Hx Hy Hw Hh Hedge.
  assert (Hgeo : Qltb a (x + ow) && Qltb x (a + w)
                 && Qltb b (y + oh) && Qltb y (b + h) = false).
  { destruct (Qltb_spec a (x + ow)), (Qltb_spec x (a + w)),
      (Qltb_spec b (y + oh)), (Qltb_spec y (b + h)); try reflexivity.
    exfalso. destruct Hedge as [E|[E|[E|E]]]; lra. }
  split.
  - unfold obstacle_hit, num_gtb. rewrite Hpx, Hpy, Hpw, Hph, Hx, Hy, Hw, Hh.
    cbn [num_add num_ltb].
    destruct (negb (passed o)); cbn [andb]; [exact Hgeo|reflexivity].
  - intros m Hmx Hmy Hmw Hmh.
    unfold melinjo_hit, num_gtb. rewrite Hpx, Hpy, Hpw, Hph, Hmx, Hmy, Hmw, Hmh.
    cbn [num_add num_ltb].
    destruct (negb (collected m)); cbn [andb]; [exact Hgeo|reflexivity].
Qed.

Lemma touching_edges_do_not_collide_witness :
  obstacle_hit (mkPlayer 100 310 50 40 0 false 0)
               (mkObstacle 150 330 80 20 (inject_Z 1) false) = false
  /\ obstacle_hit (mkPlayer 100 310 50 40 0 false 0)
                  (mkObstacle 149 330 80 20 (inject_Z 1) false) = true.
Proof.
  split; [|vm_compute; reflexivity].
  apply (touching_edges_do_not_collide _ _ 100 310 50 40 150 330 80 20);
    try reflexivity.
  left. reflexivity.
Defined.

End CollisionFacts.

Module LayoutFacts.
Import GameJs GameJsMore EnergyFacts JumpFacts GeneratorFacts.

Lemma floor_of_draw (r : Q) :
  (0 <= r)%Q -> (r < 1)%Q ->
  (Qfloor (r * 2) = 0%Z /\ (r < 1 # 2)%Q)
  \/ (Qfloor (r * 2) = 1%Z /\ (1 # 2 <= r)%Q).
Proof.
  intros H0 H1.
  pose proof (Qfloor_le (r * 2)) as Hle.
  pose proof (Qlt_floor (r * 2)) as Hlt.
  assert (Hz : (0 <= Qfloor (r * 2) < 2)%Z).
  { split.
    - apply Z.lt_succ_r. rewrite <- Z.add_1_r. rewrite Zlt_Qlt.
      change (inject_Z 0) with 0%Q. lra.
    - rewrite Zlt_Qlt. change (inject_Z 2) with 2%Q. lra. }
  assert (Hc : Qfloor (r * 2) = 0%Z \/ Qfloor (r * 2) = 1%Z) by lia.
  destruct Hc as [E|E]; rewrite E in *; [left|right]; split; try reflexivity.
  - change (inject_Z (0 + 1)) with 1%Q in Hlt. lra.
  - change (inject_Z 1) with 1%Q in Hle. lra.
Qed.

(** One iteration of the obstacle loop, with the shape of what it pushes. *)
Lemma generateObstacles_loop_push (rnd : random_source) (fuel k : nat)
    (pos : Q) (acc : list obstacle) :
  draws_in_unit rnd ->
  (pos < 9800)%Q ->
  exists (o : obstacle) (k' : nat) (gap : Q),
    (300 <= gap)%Q /\ (gap < 600)%Q /\ ox o = Fin pos /\ obstacle_shape o
    /\ (otype o = Fin (inject_Z 0) <-> (rnd k < 1 # 2)%Q)
    /\ generateObstacles_loop (S fuel) rnd k totalDistance pos acc =
       generateObstacles_loop fuel rnd (S k') totalDistance (pos + gap)%Q
                              (acc ++ [o]).
Proof.
  intros Hr Hlt. rewrite totalDistance_value.
  cbn [generateObstacles_loop num_add num_ltb num_mul num_floor num_eqb].
  destruct (Qltb_spec pos (5 * 30 * 60 + 800)) as [_|Hn]; [|exfalso; lra].
  destruct (Hr k) as (Hk0 & Hk1).
  destruct (floor_of_draw (rnd k) Hk0 Hk1) as [(E & Hhalf)|(E & Hhalf)];
    rewrite E.
  - change (Qeq_bool (inject_Z 0) 0) with true. cbn iota.
    eexists. exists (k + 3)%nat. exists (300 + rnd (k + 3)%nat * 300)%Q.
    destruct (Hr (k + 3)%nat). destruct (Hr (k + 1)%nat). destruct (Hr (k + 2)%nat).
    split; [lra|]. split; [lra|].
    split; [|split; [|split; [|reflexivity]]].
    + reflexivity.
    + cbn [num_sub num_add num_opp]. unfold obstacle_shape.
      cbn [owidth oheight oy passed otype].
      eexists; eexists; eexists.
      split; [reflexivity|]. split; [reflexivity|]. split; [reflexivity|].
      unfold_consts. split; [lra|]. split; [reflexivity|].
      left. split; [reflexivity|]. repeat split; lra.
    + cbn [otype]. split; [intros _; exact Hhalf|reflexivity].
  - change (Qeq_bool (inject_Z 1) 0) with false. cbn iota.
    eexists. exists (k + 2)%nat. exists (300 + rnd (k + 2)%nat * 300)%Q.
    destruct (Hr (k + 2)%nat). destruct (Hr (k + 1)%nat).
    split; [lra|]. split; [lra|].
    split; [|split; [|split; [|reflexivity]]].
    + reflexivity.
    + cbn [num_sub num_add num_opp]. unfold obstacle_shape.
      cbn [owidth oheight oy passed otype].
      eexists; eexists; eexists.
      split; [reflexivity|]. split; [reflexivity|]. split; [reflexivity|].
      unfold_consts. split; [lra|]. split; [reflexivity|].
      right. split; [reflexivity|]. repeat split; lra.
    + cbn [otype]. split; [discriminate|]. intros Hc. exfalso. lra.
Qed.

Lemma generateObstacles_loop_layout (rnd : random_source) :
  draws_in_unit rnd ->
  forall (f k : nat) (pos : Q) (acc l : list obstacle) (k' : nat),
    generateObstacles_loop f rnd k totalDistance pos acc = Some (l, k') ->
    exists new : list obstacle,
      l = acc ++ new
      /\ placed 300 600 9800 pos (map ox new)
      /\ Forall obstacle_shape new.
Proof.
  intros Hr. induction f as [|f IH]; intros k pos acc l k' H; [discriminate|].
  destruct (Qlt_le_dec pos 9800) as [Hlt|Hge].
  - destruct (generateObstacles_loop_push rnd f k pos acc Hr Hlt)
      as (o & k1 & gap & Hg0 & Hg1 & Hx & Hs & _ & E).
    rewrite E in H. destruct (IH _ _ _ _ _ H) as (new & -> & Hp & Hf).
    exists (o :: new). rewrite <- app_assoc. split; [reflexivity|].
    cbn [map]. rewrite Hx. split.
    + apply (placed_next _ _ _ pos gap); assumption.
    + constructor; assumption.
  - rewrite (generateObstacles_loop_exit rnd f k pos acc Hge) in H.
    injection H as <- _. exists []. rewrite app_nil_r.
    split; [reflexivity|]. split; [|constructor].
    now apply placed_end.
Qed.

Lemma generateMelinjos_loop_push (rnd : random_source) (fuel k : nat)
    (pos : Q) (acc : list melinjo) :
  draws_in_unit rnd ->
  (pos < 9800)%Q ->
  exists (m : melinjo) (gap : Q),
    (200 <= gap)%Q /\ (gap < 600)%Q /\ mx m = Fin pos /\ melinjo_shape m
    /\ generateMelinjos_loop (S fuel) rnd k totalDistance pos acc =
       generateMelinjos_loop fuel rnd (k + 2)%nat totalDistance (pos + gap)%Q
                             (acc ++ [m]).
Proof.
  intros Hr Hlt. rewrite totalDistance_value.
  cbn [generateMelinjos_loop num_add num_ltb num_mul].
  destruct (Qltb_spec pos (5 * 30 * 60 + 800)) as [_|Hn]; [|exfalso; lra].
  eexists. exists (200 + rnd (k + 1)%nat * 400)%Q.
  destruct (Hr (k + 1)%nat). destruct (Hr k).
  split; [lra|]. split; [lra|].
  split; [|split; [|reflexivity]].
  - reflexivity.
  - cbn [num_sub num_add num_opp]. unfold melinjo_shape.
    cbn [my mwidth mheight collected]. eexists.
    split; [reflexivity|]. unfold_consts. repeat split; lra.
Qed.

Lemma generateMelinjos_loop_layout (rnd : random_source) :
  draws_in_unit rnd ->
  forall (f k : nat) (pos : Q) (acc l : list melinjo) (k' : nat),
    generateMelinjos_loop f rnd k totalDistance pos acc = Some (l, k') ->
    exists new : list melinjo,
      l = acc ++ new
      /\ placed 200 600 9800 pos (map mx new)
      /\ Forall melinjo_shape new.
Proof.
  intros Hr. induction f as [|f IH]; intros k pos acc l k' H; [discriminate|].
  destruct (Qlt_le_dec pos 9800) as [Hlt|Hge].
  - destruct (generateMelinjos_loop_push rnd f k pos acc Hr Hlt)
      as (m & gap & Hg0 & Hg1 & Hx & Hs & E).
    rewrite E in H. destruct (IH _ _ _ _ _ H) as (new & -> & Hp & Hf).
    exists (m :: new). rewrite <- app_assoc. split; [reflexivity|].
    cbn [map]. rewrite Hx. split.
    + apply (placed_next _ _ _ pos gap); assumption.
    + constructor; assumption.
  - rewrite (generateMelinjos_loop_exit rnd f k pos acc Hge) in H.
    injection H as <- _. exists []. rewrite app_nil_r.
    split; [reflexivity|]. split; [|constructor].
    now apply placed_end.
Qed.

Lemma onload_lists (fuel : nat) (rnd : random_source) (s : state) :
  onload fuel rnd = Some s ->
  exists k1 k2,
    generateObstacles_loop fuel rnd 0 totalDistance 800 [] = Some (obstacles s, k1)
    /\ generateMelinjos_loop fuel rnd k1 totalDistance 800 [] = Some (melinjos s, k2).
Proof.
  unfold onload, generateObstacles, generateMelinjos. fold totalDistance.
  destruct (generateObstacles_loop _ _ _ _ _ _) as [[lo k1]|] eqn:E1;
    [|discriminate].
  destruct (generateMelinjos_loop _ _ _ _ _ _) as [[lm k2]|] eqn:E2;
    [|discriminate].
  intros H. injection H as <-. exists k1, k2.
  split; first [reflexivity | exact E1 | exact E2].
Qed.

Lemma onload_layout (fuel : nat) (rnd : random_source) (s : state) :
  draws_in_unit rnd ->
  onload fuel rnd = Some s ->
  placed 300 600 9800 800 (map ox (obstacles s))
  /\ Forall obstacle_shape (obstacles s)
  /\ placed 200 600 9800 800 (map mx (melinjos s))
  /\ Forall melinjo_shape (melinjos s).
Proof.
  intros Hr H. destruct (onload_lists _ _ _ H) as (k1 & k2 & Ho & Hm).
  destruct (generateObstacles_loop_layout rnd Hr _ _ _ _ _ _ Ho)
    as (lo & Eo & Po & Fo).
  destruct (generateMelinjos_loop_layout rnd Hr _ _ _ _ _ _ Hm)
    as (lm & Em & Pm & Fm).
  cbn [app] in Eo, Em. rewrite Eo, Em. auto.
Qed.

Lemma placed_length (lo hi bound : Q) (p : Q) (l : list num) :
  placed lo hi bound p l ->
  (bound - p <= hi * count_Q (List.length l))%Q
  /\ (l <> [] ->
      (bound - p < hi * count_Q (List.length l))%Q
      /\ (lo * (count_Q (List.length l) - 1) < bound - p)%Q).
Proof.
  induction 1 as [p Hp|p gap l Hp Hlo Hhi Hl (IH & IH')].
  - split; [|congruence]. change (count_Q (List.length [])) with 0%Q. lra.
  - cbn [List.length]. rewrite count_Q_succ.
    pose proof (count_Q_nonneg (List.length l)) as Hn.
    set (n := count_Q (List.length l)) in *.
    assert (Hup : (bound - p < hi * (n + 1))%Q) by lra.
    split; [lra|]. intros _. split; [exact Hup|].
    destruct l as [|x l'].
    + change n with 0%Q. lra.
    + destruct IH' as (_ & IHlo); [discriminate|]. lra.
Qed.

Lemma count_Q_bounds (n : nat) (a b : Z) :
  (inject_Z a < count_Q n)%Q -> (count_Q n < inject_Z b)%Q ->
  (a < Z.of_nat n < b)%Z.
Proof.
  unfold count_Q. rewrite <- !Zlt_Qlt. lia.
Qed.

Lemma placed_finite (lo hi bound : Q) (p : Q) (l : list num) :
  placed lo hi bound p l ->
  (0 <= lo)%Q ->
  Forall (fun x => exists q : Q, x = Fin q /\ (p <= q)%Q /\ (q < bound)%Q) l.
Proof.
  intros H Hlo. induction H as [p Hp|p gap l Hp Hl Hh Hpl IH]; constructor.
  - exists p. repeat split; [lra|assumption].
  - eapply Forall_impl; [|exact IH]. intros x (q & -> & H1 & H2).
    exists q. repeat split; [lra|assumption].
Qed.

Lemma placed_nth (lo hi bound : Q) (p : Q) (l : list num) :
  placed lo hi bound p l ->
  forall (k : nat) (x : num),
    nth_error l k = Some x ->
    exists q : Q,
      x = Fin q /\ (p + lo * count_Q k <= q)%Q
      /\ (q <= p + hi * count_Q k)%Q /\ (q < bound)%Q.
Proof.
  induction 1 as [p Hp|p gap l Hp Hlo Hhi Hl IH]; intros k x Hk.
  - destruct k; discriminate Hk.
  - destruct k as [|k]; cbn [nth_error] in Hk.
    + injection Hk as <-. exists p. change (count_Q 0) with 0%Q.
      split; [reflexivity|]. split; [lra|]. split; [lra|assumption].
    + destruct (IH k x Hk) as (q & -> & H1 & H2 & H3). exists q.
      rewrite count_Q_succ. pose proof (count_Q_nonneg k) as Hn.
      split; [reflexivity|]. split; [nra|]. split; [nra|assumption].
Qed.

(** X4.  The level built by [onload] (draws in [0, 1)).  The [k]-th obstacle,
    counted from 0, has its x between [800 + 300 k] and [800 + 600 k] and
    below 9800, so the first one is at x = 800; it is not passed, and it is
    a rock (type 0, width from 30 to 50, height from 20 to 50, top from 300
    to 330) or water (type 1, width from 60 to 100, height 20, top at 330).
    The [k]-th pickup has its x between [800 + 200 k] and [800 + 600 k] and
    below 9800; it is 20 by 20, not collected, with its top from 100 to
    250. *)
Theorem level_layout (fuel : nat) (rnd : random_source) (s : state) :
  draws_in_unit rnd ->
  onload fuel rnd = Some s ->
  (forall (k : nat) (o : obstacle),
     nth_error (obstacles s) k = Some o -> obstacle_in_level k o)
  /\ (forall (k : nat) (m : melinjo),
        nth_error (melinjos s) k = Some m -> melinjo_in_level k m).
Proof.
  intros Hr H. destruct (onload_layout _ _ _ Hr H) as (Po & So & Pm & Sm).
  split.
  - intros k o Hk.
    assert (Hx : nth_error (map ox (obstacles s)) k = Some (ox o))
      by (rewrite nth_error_map, Hk; reflexivity).
    destruct (placed_nth _ _ _ _ _ Po k _ Hx) as (x & Ex & H1 & H2 & H3).
    rewrite Forall_forall in So.
    destruct (So o (nth_error_In _ _ Hk))
      as (w & h & y & Ew & Eh & Ey & Hy & Hp & Hshape).
    exists x, w, h, y. unfold_consts.
    do 4 (split; [assumption|]). do 3 (split; [assumption|]).
    split; [exact Hp|].
    destruct Hshape as [(Et & ? & ? & ? & ?)|(Et & ? & ? & ?)]; [left|right];
      (split; [exact Et|]); repeat split; lra.
  - intros k m Hk.
    assert (Hx : nth_error (map mx (melinjos s)) k = Some (mx m))
      by (rewrite nth_error_map, Hk; reflexivity).
    destruct (placed_nth _ _ _ _ _ Pm k _ Hx) as (x & Ex & H1 & H2 & H3).
    rewrite Forall_forall in Sm.
    destruct (Sm m (nth_error_In _ _ Hk))
      as (y & Ey & Hy0 & Hy1 & Ew & Eh & Ec).
    exists x, y. do 2 (split; [assumption|]). do 3 (split; [assumption|]).
    split; [lra|]. split; [assumption|]. auto.
Qed.

Lemma level_layout_witness :
  exists (s : state) (o1 : obstacle) (m1 : melinjo),
    onload 46 demo_rnd = Some s
    /\ nth_error (obstacles s) 1 = Some o1
    /\ nth_error (melinjos s) 1 = Some m1
    /\ obstacle_in_level 1 o1
    /\ melinjo_in_level 1 m1.
Proof.
  eexists. eexists. eexists. split; [vm_compute; reflexivity|].
  split; [vm_compute; reflexivity|]. split; [vm_compute; reflexivity|].
  match goal with |- obstacle_in_level 1 ?o /\ melinjo_in_level 1 ?m =>
    destruct (level_layout 46 demo_rnd _ demo_rnd_in_unit eq_refl)
      as (Ho & Hm);
    split; [apply Ho|apply Hm]; vm_compute; reflexivity
  end.
Defined.

(** X5.  A level has between 15 and 30 obstacles and between 15 and 45
    pickups. *)
Theorem level_entity_counts (fuel : nat) (rnd : random_source) (s : state) :
  draws_in_unit rnd ->
  onload fuel rnd = Some s ->
  (15 <= List.length (obstacles s) <= 30)%nat
  /\ (15 <= List.length (melinjos s) <= 45)%nat.
Proof.
  intros Hr H. destruct (onload_layout _ _ _ Hr H) as (Po & _ & Pm & _).
  assert (Ho : map ox (obstacles s) <> []).
  { intros E. rewrite E in Po. inversion Po. lra. }
  assert (Hm : map mx (melinjos s) <> []).
  { intros E. rewrite E in Pm. inversion Pm. lra. }
  apply placed_length in Po, Pm. rewrite length_map in Po, Pm.
  destruct Po as (Po0 & Po), Pm as (Pm0 & Pm).
  destruct (Po Ho) as (_ & Po2). destruct (Pm Hm) as (_ & Pm2).
  assert (Bo : (14 < Z.of_nat (List.length (obstacles s)) < 31)%Z).
  { apply count_Q_bounds.
    - change (inject_Z 14) with 14%Q. lra.
    - change (inject_Z 31) with 31%Q. lra. }
  assert (Bm : (14 < Z.of_nat (List.length (melinjos s)) < 46)%Z).
  { apply count_Q_bounds.
    - change (inject_Z 14) with 14%Q. lra.
    - change (inject_Z 46) with 46%Q. lra. }
  lia.
Qed.

Lemma level_entity_counts_witness :
  exists s : state,
    onload 46 demo_rnd = Some s
    /\ (15 <= List.length (obstacles s) <= 30)%nat
    /\ (15 <= List.length (melinjos s) <= 45)%nat.
Proof.
  eexists. split; [vm_compute; reflexivity|].
  apply (level_entity_counts 46 demo_rnd);
    [exact demo_rnd_in_unit | vm_compute; reflexivity].
Defined.

End LayoutFacts.

Module WorldFacts.
Import GameJs GameJsMore EnergyFacts JumpFacts GeneratorFacts FrameFacts
       CollisionFacts LayoutFacts.

Lemma obstacle_hit_box (p p' : Player) (o : obstacle) :
  px p' = px p -> py p' = py p -> pwidth p' = pwidth p ->
  pheight p' = pheight p ->
  obstacle_hit p' o = obstacle_hit p o.
Proof.
  intros H1 H2 H3 H4. unfold obstacle_hit. rewrite H1, H2, H3, H4.
  reflexivity.
Qed.

Lemma existsb_hit_box (p p' : Player) (l : list obstacle) :
  px p' = px p -> py p' = py p -> pwidth p' = pwidth p ->
  pheight p' = pheight p ->
  existsb (obstacle_hit p') l = existsb (obstacle_hit p) l.
Proof.
  intros H1 H2 H3 H4. induction l as [|o l IH]; [reflexivity|].
  cbn [existsb]. rewrite IH, (obstacle_hit_box p p' o H1 H2 H3 H4).
  reflexivity.
Qed.

(** *** The player *)

Lemma handleJump_player_invariant (s : state) :
  player_invariant (player s) -> player_invariant (player (handleJump s)).
Proof.
  intros (Hx & Hw & Hh & Hy & (v & Hv) & Hj).
  destruct (energy s >=? ENERGY_JUMP_COST) eqn:He.
  - destruct (handleJump_accepted s He)
      as (_ & Hv' & Hj' & Hc' & Hx' & Hy' & Hw' & Hh' & _).
    cbn zeta in *. unfold player_invariant.
    rewrite Hx', Hy', Hw', Hh', Hv', Hj', Hc'.
    repeat (split; [assumption|]). split.
    + destruct (isJumping (player s)) eqn:Ej.
      * rewrite (flyingForce_finite _ (Hj eq_refl)). eexists. reflexivity.
      * eexists. reflexivity.
    + intros _. destruct (isJumping (player s)); lia.
  - rewrite (handleJump_rejected s He). unfold player_invariant. eauto 10.
Qed.

Lemma updatePlayer_player_invariant (s : state) :
  player_invariant (player s) -> player_invariant (player (updatePlayer s)).
Proof.
  intros (Hx & Hw & Hh & (y & Hy & Hy310) & (v & Hv) & Hj).
  unfold player_invariant, updatePlayer. cbn zeta.
  destruct (player s) as [x0 y0 w0 h0 v0 j0 c0].
  cbn [px py pwidth pheight velocityY isJumping jumpCount] in *. subst.
  cbn [px py pwidth pheight velocityY isJumping jumpCount set_py
       set_velocityY set_isJumping set_jumpCount set_player player
       num_add num_sub num_opp num_geb num_leb].
  unfold_consts.
  destruct (Qleb_spec (400 + - (50) + - (40)) (y + (v + 0.6))) as [Hge|Hlt];
    cbn [px py pwidth pheight velocityY isJumping jumpCount].
  - repeat (split; [reflexivity|]). split; [eexists; split; [reflexivity|lra]|].
    split; [eexists; reflexivity|discriminate].
  - repeat (split; [reflexivity|]). split; [eexists; split; [reflexivity|lra]|].
    split; [eexists; reflexivity|exact Hj].
Qed.

(** *** The entities *)

Lemma updateObstacles_invariant (l : list obstacle) :
  Forall obstacle_invariant l ->
  Forall obstacle_invariant
         (map (fun o => set_ox (ox o - SCROLL_SPEED) o) l).
Proof.
  intros H. apply Forall_map. eapply Forall_impl; [|exact H].
  intros o (x & w & y & h & Hx & Hw & Hy & Hh & Hp).
  exists (x + - SCROLL_SPEED)%Q, w, y, h.
  destruct o as [ox0 oy0 ow0 oh0 ot0 op0].
  cbn [ox oy owidth oheight passed set_ox] in *. subst.
  repeat (split; [reflexivity|]). intros E. specialize (Hp E).
  unfold_consts. lra.
Qed.

Lemma updateMelinjos_invariant (l : list melinjo) :
  Forall melinjo_invariant l ->
  Forall melinjo_invariant
         (map (fun m => set_mx (mx m - SCROLL_SPEED) m) l).
Proof.
  intros H. apply Forall_map. eapply Forall_impl; [|exact H].
  intros m (x & y & Hx & Hy & H0 & H1 & Hw & Hh).
  exists (x + - SCROLL_SPEED)%Q, y.
  destruct m as [mx0 my0 mw0 mh0 mc0].
  cbn [mx my mwidth mheight set_mx] in *. subst.
  repeat (split; [reflexivity|]). auto.
Qed.

Lemma mark_passed_invariant (p : Player) (o : obstacle) :
  px p = Fin 100 ->
  obstacle_invariant o -> obstacle_invariant (mark_passed p o).
Proof.
  intros Hp (x & w & y & h & Hx & Hw & Hy & Hh & Hpass).
  unfold mark_passed, obstacle_behind. rewrite Hp, Hx, Hw.
  cbn [num_add num_ltb].
  destruct (Qltb_spec (x + w) 100) as [Hlt|Hge]; cbn [andb].
  - destruct (negb (passed o)).
    + exists x, w, y, h. destruct o; cbn in *. auto 10.
    + exists x, w, y, h. auto 10.
  - exists x, w, y, h. auto 10.
Qed.

Lemma checkMelinjos_invariant (p : Player) (l : list melinjo) :
  forall e : num,
    Forall melinjo_invariant l ->
    Forall melinjo_invariant (fst (checkMelinjos p l e)).
Proof.
  induction l as [|m l IH]; intros e H; [constructor|].
  inversion H as [|? ? Hm Hl]; subst. cbn [checkMelinjos].
  match goal with |- context [if ?c then _ else _] => destruct c end.
  - match goal with |- context [checkMelinjos p l ?e'] =>
      specialize (IH e' Hl); destruct (checkMelinjos p l e') as [rest e2]
    end.
    cbn [fst] in *. constructor; [|assumption].
    destruct Hm as (x & y & Hm). exists x, y.
    destruct m; cbn in *. exact Hm.
  - specialize (IH e Hl). destruct (checkMelinjos p l e) as [rest e2].
    cbn [fst] in *. constructor; assumption.
Qed.

Lemma checkMelinjos_no_hit (p : Player) (l : list melinjo) (e : num) :
  Forall (fun m => melinjo_hit p m = false) l ->
  checkMelinjos p l e = (l, e).
Proof.
  induction 1 as [|m l Hm Hl IH]; [reflexivity|].
  cbn [checkMelinjos]. unfold melinjo_hit in Hm. rewrite Hm, IH.
  reflexivity.
Qed.

Lemma checkCollisions_entities (s : state) :
  px (player s) = Fin 100 ->
  Forall obstacle_invariant (obstacles s) ->
  Forall melinjo_invariant (melinjos s) ->
  Forall obstacle_invariant (obstacles (checkCollisions s))
  /\ Forall melinjo_invariant (melinjos (checkCollisions s)).
Proof.
  intros Hp Ho Hm. destruct (checkCollisions_cases s) as (Hhit & Hno).
  cbn zeta in Hhit, Hno.
  destruct (existsb (obstacle_hit (player s)) (obstacles s)).
  - destruct (Hhit eq_refl) as (l1 & o & l2 & E & _ & _ & ->).
    cbn [obstacles melinjos set_gameActive set_obstacles].
    split; [|exact Hm]. rewrite E in Ho.
    apply Forall_app in Ho. destruct Ho as (H1 & H2).
    apply Forall_app. split; [|exact H2].
    apply Forall_map. eapply Forall_impl; [|exact H1].
    intros o'. now apply mark_passed_invariant.
  - rewrite (Hno eq_refl).
    pose proof (checkMelinjos_invariant (player s) (melinjos s) (energy s) Hm)
      as Hm'.
    destruct (checkMelinjos _ _ _) as [mels e]. cbn [fst] in Hm'.
    assert (Ho' : Forall obstacle_invariant
                         (map (mark_passed (player s)) (obstacles s))).
    { apply Forall_map. eapply Forall_impl; [|exact Ho].
      intros o'. now apply mark_passed_invariant. }
    destruct (py (player s) >? CANVAS_HEIGHT); split; assumption.
Qed.

Lemma checkCollisions_loss (s : state) :
  (exists y : Q, py (player s) = Fin y /\ (y <= 310)%Q) ->
  gameActive (checkCollisions s) = false ->
  gameActive s = false
  \/ existsb (obstacle_hit (player (checkCollisions s)))
             (obstacles (checkCollisions s)) = true.
Proof.
  intros (y & Hy & Hle) Hend.
  destruct (checkCollisions_cases s) as (Hhit & Hno).
  cbn zeta in Hhit, Hno.
  destruct (existsb (obstacle_hit (player s)) (obstacles s)).
  - right. destruct (Hhit eq_refl) as (l1 & o & l2 & _ & _ & Ho & ->).
    cbn [player obstacles set_gameActive set_obstacles].
    rewrite existsb_app. cbn [existsb]. rewrite Ho.
    rewrite orb_true_r. reflexivity.
  - left. rewrite (Hno eq_refl) in Hend.
    destruct (checkMelinjos _ _ _) as [mels e].
    rewrite Hy in Hend. unfold num_gtb, CANVAS_HEIGHT in Hend.
    cbn [num_ltb] in Hend.
    destruct (Qltb_spec 400 y) as [Hgt|_]; [exfalso; lra|exact Hend].
Qed.

(** *** The whole state *)

Lemma onload_world_invariant (fuel : nat) (rnd : random_source) (s : state) :
  draws_in_unit rnd -> onload fuel rnd = Some s -> world_invariant s.
Proof.
  intros Hr H. destruct (onload_layout _ _ _ Hr H) as (Po & So & Pm & Sm).
  apply onload_fields in H. destruct H as (_ & Hp & _ & _ & Ha).
  unfold world_invariant. rewrite Hp, Ha.
  split; [|split; [|split; [|discriminate]]].
  - unfold player_invariant. cbn.
    repeat (split; [reflexivity|]).
    split; [eexists; split; [reflexivity|unfold_consts; lra]|].
    split; [eexists; reflexivity|discriminate].
  - apply placed_finite in Po; [|lra].
    clear Pm Sm. induction So as [|o l Hs Hl IH]; [constructor|].
    cbn [map] in Po. inversion Po as [|? ? Hx Hxs]; subst.
    constructor; [|now apply IH].
    destruct Hx as (x & Hx & _). destruct Hs as (w & h & y & Hw & Hh & Hy & _ & Hpass & _).
    exists x, w, y, h. repeat (split; [assumption|]). congruence.
  - apply placed_finite in Pm; [|lra].
    clear Po So. induction Sm as [|m l Hs Hl IH]; [constructor|].
    cbn [map] in Pm. inversion Pm as [|? ? Hx Hxs]; subst.
    constructor; [|now apply IH].
    destruct Hx as (x & Hx & _). destruct Hs as (y & Hy & H0 & H1 & Hw & Hh & _).
    exists x, y. auto 10.
Qed.

Lemma handleJump_world_invariant (s : state) :
  world_invariant s -> world_invariant (handleJump s).
Proof.
  intros (Hp & Ho & Hm & Hl).
  pose proof (handleJump_player_invariant s Hp) as Hp'.
  destruct (energy s >=? ENERGY_JUMP_COST) eqn:He.
  - destruct (handleJump_accepted s He)
      as (_ & _ & _ & _ & Hx & Hy & Hw & Hh & Eo & Em & Et & Ea & _).
    cbn zeta in *. unfold world_invariant. rewrite Eo, Em, Et, Ea.
    repeat (split; [assumption|]).
    rewrite (existsb_hit_box (player s) _ _ Hx Hy Hw Hh). exact Hl.
  - rewrite (handleJump_rejected s He). unfold world_invariant. auto.
Qed.

Lemma frame_updates_world_invariant (s : state) :
  player_invariant (player s) ->
  Forall obstacle_invariant (obstacles s) ->
  Forall melinjo_invariant (melinjos s) ->
  (gameActive s = false -> (gameTime s >=? GAME_DURATION) = true) ->
  world_invariant (frame_updates s).
Proof.
  intros Hp Ho Hm Hl. unfold frame_updates.
  set (s1 := updatePlayer s).
  set (s2 := updateObstacles s1). set (s3 := updateMelinjos s2).
  set (s4 := updateEnergy s3).
  assert (Hp4 : player s4 = player s1)
    by (unfold s4; rewrite updateEnergy_player; reflexivity).
  assert (Hp1 : player_invariant (player s1))
    by (apply updatePlayer_player_invariant; exact Hp).
  assert (Ho4 : Forall obstacle_invariant (obstacles s4)).
  { unfold s4, updateEnergy.
    repeat match goal with |- context [if ?c then _ else _] => destruct c end;
      apply (updateObstacles_invariant _ Ho). }
  assert (Hm4 : Forall melinjo_invariant (melinjos s4)).
  { unfold s4, updateEnergy.
    repeat match goal with |- context [if ?c then _ else _] => destruct c end;
      apply (updateMelinjos_invariant _ Hm). }
  assert (Ht4 : gameTime s4 = gameTime s /\ gameActive s4 = gameActive s).
  { unfold s4. destruct (updateEnergy_clock s3) as (-> & ->). split; reflexivity. }
  destruct Ht4 as (Ht4 & Ha4).
  destruct Hp1 as (Hx & Hw & Hh & Hy & Hv & Hj).
  rewrite <- Hp4 in Hx, Hw, Hh, Hy, Hv, Hj.
  destruct (checkCollisions_entities s4 Hx Ho4 Hm4) as (Ho5 & Hm5).
  unfold world_invariant.
  split; [rewrite checkCollisions_player; unfold player_invariant; auto 10|].
  split; [exact Ho5|]. split; [exact Hm5|].
  intros Hend. destruct (checkCollisions_loss s4 Hy Hend) as [Hina|Hhit].
  - left. rewrite checkCollisions_gameTime, Ht4. apply Hl.
    rewrite <- Ha4. exact Hina.
  - right. exact Hhit.
Qed.

Lemma gameLoop_world_invariant (ts : Q) (s : state) :
  world_invariant s -> world_invariant (fst (gameLoop ts s)).
Proof.
  intros (Hp & Ho & Hm & Hl). rewrite gameLoop_state.
  destruct (gameActive s) eqn:Ha.
  - apply frame_updates_world_invariant.
    + rewrite frame_clock_player. exact Hp.
    + unfold frame_clock.
      match goal with |- context [if ?c then _ else _] => destruct c end;
        exact Ho.
    + unfold frame_clock.
      match goal with |- context [if ?c then _ else _] => destruct c end;
        exact Hm.
    + rewrite frame_clock_gameActive, frame_clock_gameTime.
      destruct (gameTime s + deltaTime ts s / 1000 >=? GAME_DURATION);
        [reflexivity|congruence].
  - unfold world_invariant. cbn. rewrite Ha. auto.
Qed.

Lemma reachable_world_invariant :
  forall s, reachable s -> world_invariant s.
Proof.
  intros s H. induction H as [fuel rnd s Hr H|i s H IH].
  - exact (onload_world_invariant fuel rnd s Hr H).
  - destruct i as [code| | |ts]; cbn [step].
    + destruct code; unfold onKeyDown; [destruct (gameActive s)|]; auto.
      now apply handleJump_world_invariant.
    + unfold onCanvasTouch. destruct (gameActive s); auto.
      now apply handleJump_world_invariant.
    + unfold onButtonTouch. destruct (gameActive s); auto.
      now apply handleJump_world_invariant.
    + now apply gameLoop_world_invariant.
Qed.

(** X6.  In every reachable state the player's box is 50 by 40 at x = 100,
    its [y] is finite and at most 310 (the ground line) and its velocity is
    finite; so the fall-off test [player.y > CANVAS_HEIGHT] of
    [checkCollisions] is false, also after the next [updatePlayer]. *)
Theorem fall_off_never_fires (s : state) :
  reachable s ->
  px (player s) = Fin 100 /\ pwidth (player s) = Fin 50
  /\ pheight (player s) = Fin 40
  /\ (exists y : Q, py (player s) = Fin y /\ (y <= 310)%Q)
  /\ (exists v : Q, velocityY (player s) = Fin v)
  /\ (py (player s) >? CANVAS_HEIGHT) = false
  /\ (py (player (updatePlayer s)) >? CANVAS_HEIGHT) = false.
Proof.
  intros H. apply reachable_world_invariant in H. destruct H as (Hp & _).
  pose proof (updatePlayer_player_invariant s Hp) as Hp'.
  destruct Hp as (Hx & Hw & Hh & (y & Hy & Hle) & Hv & _).
  destruct Hp' as (_ & _ & _ & (y' & Hy' & Hle') & _).
  split; [exact Hx|]. split; [exact Hw|]. split; [exact Hh|].
  split; [exists y; auto|]. split; [exact Hv|].
  rewrite Hy, Hy'. unfold num_gtb, CANVAS_HEIGHT. cbn [num_ltb].
  destruct (Qltb_spec 400 y), (Qltb_spec 400 y'); try (exfalso; lra).
  split; reflexivity.
Qed.

Lemma fall_off_never_fires_witness :
  exists s0 : state,
    onload 46 demo_rnd = Some s0
    /\ let s := run [KeyDown Space; AnimationFrame 16; KeyDown Space;
                     AnimationFrame 32] s0 in
       (py (player s) >? CANVAS_HEIGHT) = false.
Proof.
  eexists. split; [vm_compute; reflexivity|]. cbv zeta.
  match goal with |- (py (player ?s) >? _) = false =>
    apply (fall_off_never_fires s)
  end.
  apply reachable_demo. vm_compute; reflexivity.
Defined.

(** X7.  In a reachable state where the game is over before the time limit,
    the player overlaps an obstacle that is not passed, and the end screen
    reads "Game Over". *)
Theorem loss_means_collision (s : state) :
  reachable s ->
  gameActive s = false ->
  (gameTime s <? GAME_DURATION) = true ->
  existsb (obstacle_hit (player s)) (obstacles s) = true
  /\ hd_error (drawGameOver s) = Some "Game Over"%string.
Proof.
  intros H Ha Ht. apply reachable_world_invariant in H.
  destruct H as (_ & _ & _ & Hl). apply num_ltb_not_geb in Ht.
  split.
  - destruct (Hl Ha) as [Hw|Hhit]; [congruence|exact Hhit].
  - unfold drawGameOver. rewrite Ht. reflexivity.
Qed.

Lemma loss_means_collision_witness :
  exists s0 : state,
    onload 46 demo_rnd = Some s0
    /\ let s := run (demo_frames 131) s0 in
       gameActive s = false
       /\ existsb (obstacle_hit (player s)) (obstacles s) = true
       /\ hd_error (drawGameOver s) = Some "Game Over"%string.
Proof.
  eexists. split; [vm_compute; reflexivity|]. cbv zeta.
  split; [vm_compute; reflexivity|].
  match goal with |- existsb (obstacle_hit (player ?s)) _ = true /\ _ =>
    apply (loss_means_collision s);
      [apply reachable_demo | | ]; vm_compute; reflexivity
  end.
Defined.

Lemma hd_error_In {A : Type} (l : list A) (a : A) :
  hd_error l = Some a -> In a l.
Proof.
  destruct l as [|b l]; [discriminate|]. intros H. injection H as ->.
  left. reflexivity.
Qed.

(** X8.  In every reachable state an obstacle marked as passed lies wholly
    to the left of the player and does not overlap it; so for every obstacle
    the collision test with the [passed] guard equals the test without
    it. *)
Theorem passed_flag_is_redundant (s : state) :
  reachable s ->
  Forall (fun o => (passed o = true ->
                    obstacle_behind (player s) o = true
                    /\ obstacle_overlap (player s) o = false)
                   /\ obstacle_hit (player s) o
                      = obstacle_overlap (player s) o)
         (obstacles s).
Proof.
  intros H. apply reachable_world_invariant in H.
  destruct H as ((Hx & _) & Ho & _).
  eapply Forall_impl; [|exact Ho].
  intros o (x & w & y & h & Ex & Ew & Ey & Eh & Hp).
  assert (Hpass : passed o = true ->
                  obstacle_behind (player s) o = true
                  /\ obstacle_overlap (player s) o = false).
  { intros E. specialize (Hp E).
    unfold obstacle_behind, obstacle_overlap. rewrite Hx, Ex, Ew.
    cbn [num_add num_ltb].
    destruct (Qltb_spec (x + w) 100), (Qltb_spec 100 (x + w));
      try (exfalso; lra). split; reflexivity. }
  split; [exact Hpass|].
  destruct (passed o) eqn:E.
  - destruct (Hpass eq_refl) as (_ & Hov). rewrite Hov.
    unfold obstacle_hit. rewrite E. reflexivity.
  - unfold obstacle_hit, obstacle_overlap. rewrite E. reflexivity.
Qed.

Lemma passed_flag_is_redundant_witness :
  exists (s0 : state) (o : obstacle),
    onload 46 demo_rnd = Some s0
    /\ let s := run (demo_jump_run 30) s0 in
       gameActive s = true
       /\ hd_error (obstacles s) = Some o
       /\ passed o = true
       /\ obstacle_behind (player s) o = true
       /\ obstacle_overlap (player s) o = false
       /\ obstacle_hit (player s) o = obstacle_overlap (player s) o.
Proof.
  eexists. eexists. split; [vm_compute; reflexivity|]. cbv zeta.
  split; [vm_compute; reflexivity|].
  match goal with |- hd_error (obstacles ?s) = Some ?o /\ _ =>
    assert (Hhd : hd_error (obstacles s) = Some o) by (vm_compute; reflexivity);
    pose proof (hd_error_In _ _ Hhd) as Hin;
    assert (Hr : reachable s) by (apply reachable_demo; vm_compute; reflexivity);
    pose proof (proj1 (Forall_forall _ _) (passed_flag_is_redundant s Hr) o Hin)
      as (Hp & He)
  end.
  split; [exact Hhd|].
  match goal with |- passed ?o = true /\ _ =>
    assert (Hpass : passed o = true) by reflexivity
  end.
  split; [exact Hpass|].
  destruct (Hp Hpass) as (Hb & Ho).
  split; [exact Hb|]. split; [exact Ho|exact He].
Defined.

(** X9.  In a reachable state, a player whose top is at y >= 270 (on the
    ground it is at 310) touches no pickup: [checkCollisions] changes neither
    the pickups nor the energy. *)
Theorem low_player_collects_nothing (s : state) (y : Q) :
  reachable s ->
  py (player s) = Fin y -> (270 <= y)%Q ->
  Forall (fun m => melinjo_hit (player s) m = false) (melinjos s)
  /\ melinjos (checkCollisions s) = melinjos s
  /\ energy (checkCollisions s) = energy s.
Proof.
  intros H Hy Hlow. apply reachable_world_invariant in H.
  destruct H as (_ & _ & Hm & _).
  assert (Hno : Forall (fun m => melinjo_hit (player s) m = false)
                       (melinjos s)).
  { eapply Forall_impl; [|exact Hm].
    intros m (mx0 & my0 & Ex & Ey & H0 & H1 & Ew & Eh).
    unfold melinjo_hit. rewrite Hy, Ey, Eh. cbn [num_add num_ltb].
    destruct (Qltb_spec y (my0 + 20)) as [Hc|_]; [exfalso; lra|].
    rewrite andb_false_r. reflexivity. }
  split; [exact Hno|].
  destruct (checkCollisions_cases s) as (Hhit & Hnohit).
  cbn zeta in Hhit, Hnohit.
  destruct (existsb (obstacle_hit (player s)) (obstacles s)).
  - destruct (Hhit eq_refl) as (l1 & o & l2 & _ & _ & _ & ->).
    split; reflexivity.
  - rewrite (Hnohit eq_refl), (checkMelinjos_no_hit _ _ _ Hno).
    destruct (py (player s) >? CANVAS_HEIGHT); split; reflexivity.
Qed.

Lemma low_player_collects_nothing_witness :
  exists s0 : state,
    onload 46 demo_rnd = Some s0
    /\ let s := run (demo_frames 3) s0 in
       melinjos (checkCollisions s) = melinjos s
       /\ energy (checkCollisions s) = energy s.
Proof.
  eexists. split; [vm_compute; reflexivity|]. cbv zeta.
  match goal with |- melinjos (checkCollisions ?s) = _ /\ _ =>
    apply (low_player_collects_nothing s 310);
      [apply reachable_demo; vm_compute; reflexivity
      | vm_compute; reflexivity | lra]
  end.
Defined.

End WorldFacts.

Module RunFacts.
Import GameJs GameJsMore EnergyFacts JumpFacts GeneratorFacts FrameFacts
       CollisionFacts LayoutFacts WorldFacts.

Lemma Forall2_compose {A : Type} (R : A -> A -> Prop) :
  (forall a b c, R a b -> R b c -> R a c) ->
  forall l1 l2 l3, Forall2 R l1 l2 -> Forall2 R l2 l3 -> Forall2 R l1 l3.
Proof.
  intros H l1 l2 l3 H12. revert l3.
  induction H12 as [|a b l1 l2 Hab H12 IH]; intros l3 H23;
    inversion H23; subst; constructor; eauto.
Qed.

Lemma Forall2_same {A : Type} (R : A -> A -> Prop) (l : list A) :
  (forall a, R a a) -> Forall2 R l l.
Proof. intros H. induction l; constructor; auto. Qed.

Lemma obstacle_evolves_refl (o : obstacle) : obstacle_evolves o o.
Proof.
  unfold obstacle_evolves. do 4 (split; [reflexivity|]).
  split; [auto|]. intros x Hx. exists x. split; [assumption|lra].
Qed.

Lemma melinjo_evolves_refl (m : melinjo) : melinjo_evolves m m.
Proof.
  unfold melinjo_evolves. do 3 (split; [reflexivity|]).
  split; [auto|]. intros x Hx. exists x. split; [assumption|lra].
Qed.

Lemma obstacle_evolves_trans (a b c : obstacle) :
  obstacle_evolves a b -> obstacle_evolves b c -> obstacle_evolves a c.
Proof.
  intros (Hy & Hw & Hh & Ht & Hp & Hx) (Hy' & Hw' & Hh' & Ht' & Hp' & Hx').
  unfold obstacle_evolves.
  split; [congruence|]. split; [congruence|]. split; [congruence|].
  split; [congruence|]. split; [auto|].
  intros x E. destruct (Hx x E) as (x1 & E1 & Q1).
  destruct (Hx' x1 E1) as (x2 & E2 & Q2). exists x2.
  split; [assumption|lra].
Qed.

Lemma melinjo_evolves_trans (a b c : melinjo) :
  melinjo_evolves a b -> melinjo_evolves b c -> melinjo_evolves a c.
Proof.
  intros (Hy & Hw & Hh & Hp & Hx) (Hy' & Hw' & Hh' & Hp' & Hx').
  unfold melinjo_evolves.
  split; [congruence|]. split; [congruence|]. split; [congruence|].
  split; [auto|].
  intros x E. destruct (Hx x E) as (x1 & E1 & Q1).
  destruct (Hx' x1 E1) as (x2 & E2 & Q2). exists x2.
  split; [assumption|lra].
Qed.

Lemma updateObstacles_evolves (l : list obstacle) :
  Forall2 obstacle_evolves l
          (map (fun o => set_ox (ox o - SCROLL_SPEED) o) l).
Proof.
  induction l as [|o l IH]; constructor; [|exact IH].
  unfold obstacle_evolves. destruct o; cbn.
  do 4 (split; [reflexivity|]). split; [auto|].
  intros x ->. eexists. split; [reflexivity|]. unfold_consts. lra.
Qed.

Lemma updateMelinjos_evolves (l : list melinjo) :
  Forall2 melinjo_evolves l
          (map (fun m => set_mx (mx m - SCROLL_SPEED) m) l).
Proof.
  induction l as [|m l IH]; constructor; [|exact IH].
  unfold melinjo_evolves. destruct m; cbn.
  do 3 (split; [reflexivity|]). split; [auto|].
  intros x ->. eexists. split; [reflexivity|]. unfold_consts. lra.
Qed.

Lemma checkObstacles_evolves (p : Player) (l : list obstacle) :
  Forall2 obstacle_evolves l (fst (checkObstacles p l)).
Proof.
  induction l as [|o l IH]; [constructor|].
  cbn [checkObstacles].
  match goal with |- context [if ?c then _ else _] => destruct c end.
  - apply Forall2_same. apply obstacle_evolves_refl.
  - destruct (checkObstacles p l) as [rest hit]. cbn [fst] in *.
    constructor; [|exact IH].
    match goal with |- context [if ?c then _ else _] => destruct c end;
      [|apply obstacle_evolves_refl].
    unfold obstacle_evolves. destruct o; cbn.
    do 4 (split; [reflexivity|]). split; [auto|].
    intros x ->. exists x. split; [reflexivity|lra].
Qed.

Lemma checkMelinjos_evolves (p : Player) (l : list melinjo) :
  forall e : num, Forall2 melinjo_evolves l (fst (checkMelinjos p l e)).
Proof.
  induction l as [|m l IH]; intros e; [constructor|].
  cbn [checkMelinjos].
  match goal with |- context [if ?c then _ else _] => destruct c end.
  - match goal with |- context [checkMelinjos p l ?e'] =>
      specialize (IH e'); destruct (checkMelinjos p l e') as [rest e2]
    end.
    cbn [fst] in *. constructor; [|exact IH].
    unfold melinjo_evolves. destruct m; cbn.
    do 3 (split; [reflexivity|]). split; [auto|].
    intros x ->. exists x. split; [reflexivity|lra].
  - specialize (IH e). destruct (checkMelinjos p l e) as [rest e2].
    cbn [fst] in *. constructor; [apply melinjo_evolves_refl|exact IH].
Qed.

Lemma checkCollisions_evolves (s : state) :
  Forall2 obstacle_evolves (obstacles s) (obstacles (checkCollisions s))
  /\ Forall2 melinjo_evolves (melinjos s) (melinjos (checkCollisions s)).
Proof.
  unfold checkCollisions.
  pose proof (checkObstacles_evolves (player s) (obstacles s)) as Ho.
  pose proof (checkMelinjos_evolves (player s) (melinjos s) (energy s)) as Hm.
  destruct (checkObstacles _ _) as [obs hit]. cbn [fst] in Ho.
  destruct hit.
  - split; [exact Ho|]. apply Forall2_same, melinjo_evolves_refl.
  - destruct (checkMelinjos _ _ _) as [mels e]. cbn [fst] in Hm.
    destruct (py (player s) >? CANVAS_HEIGHT); split; assumption.
Qed.

Lemma frame_updates_entities (s : state) :
  obstacles (updateEnergy (updateMelinjos (updateObstacles (updatePlayer s))))
  = map (fun o => set_ox (ox o - SCROLL_SPEED) o) (obstacles s)
  /\ melinjos (updateEnergy (updateMelinjos (updateObstacles (updatePlayer s))))
     = map (fun m => set_mx (mx m - SCROLL_SPEED) m) (melinjos s).
Proof.
  unfold updateEnergy.
  repeat match goal with |- context [if ?c then _ else _] => destruct c end;
    split; reflexivity.
Qed.

Lemma frame_updates_evolves (s : state) :
  Forall2 obstacle_evolves (obstacles s) (obstacles (frame_updates s))
  /\ Forall2 melinjo_evolves (melinjos s) (melinjos (frame_updates s)).
Proof.
  unfold frame_updates.
  set (s4 := updateEnergy (updateMelinjos (updateObstacles (updatePlayer s)))).
  destruct (checkCollisions_evolves s4) as (Ho & Hm).
  destruct (frame_updates_entities s) as (Eo & Em). fold s4 in Eo, Em.
  rewrite Eo in Ho. rewrite Em in Hm. split.
  - apply (Forall2_compose _ obstacle_evolves_trans _ _ _
             (updateObstacles_evolves _) Ho).
  - apply (Forall2_compose _ melinjo_evolves_trans _ _ _
             (updateMelinjos_evolves _) Hm).
Qed.

Lemma handleJump_entities (s : state) :
  obstacles (handleJump s) = obstacles s
  /\ melinjos (handleJump s) = melinjos s.
Proof.
  unfold handleJump.
  repeat match goal with |- context [if ?c then _ else _] => destruct c end;
    split; reflexivity.
Qed.

Lemma frame_clock_entities (ts : Q) (s : state) :
  obstacles (frame_clock ts s) = obstacles s
  /\ melinjos (frame_clock ts s) = melinjos s.
Proof.
  unfold frame_clock.
  match goal with |- context [if ?c then _ else _] => destruct c end;
    split; reflexivity.
Qed.

Lemma step_evolves (i : input) (s : state) :
  Forall2 obstacle_evolves (obstacles s) (obstacles (step i s))
  /\ Forall2 melinjo_evolves (melinjos s) (melinjos (step i s)).
Proof.
  assert (Hsame : forall s', obstacles s' = obstacles s ->
                             melinjos s' = melinjos s ->
            Forall2 obstacle_evolves (obstacles s) (obstacles s')
            /\ Forall2 melinjo_evolves (melinjos s) (melinjos s')).
  { intros s' -> ->.
    split; apply Forall2_same;
      [apply obstacle_evolves_refl|apply melinjo_evolves_refl]. }
  destruct (handleJump_entities s) as (Eo & Em).
  destruct i as [code| | |ts]; cbn [step].
  - destruct code; unfold onKeyDown; [destruct (gameActive s)|]; auto.
  - unfold onCanvasTouch. destruct (gameActive s); auto.
  - unfold onButtonTouch. destruct (gameActive s); auto.
  - rewrite gameLoop_state. destruct (gameActive s); [|auto].
    destruct (frame_updates_evolves (frame_clock ts s)) as (Ho & Hm).
    destruct (frame_clock_entities ts s) as (E1 & E2).
    rewrite E1 in Ho. rewrite E2 in Hm. auto.
Qed.

(** X10.  Over any run from any state, obstacles and pickups are never
    added, removed or reordered; their y, width, height and type never
    change; [passed] and [collected] never go back to false; and a finite x
    stays finite and never increases. *)
Theorem entities_only_scroll_and_flag (l : list input) (s : state) :
  Forall2 obstacle_evolves (obstacles s) (obstacles (run l s))
  /\ Forall2 melinjo_evolves (melinjos s) (melinjos (run l s))
  /\ List.length (obstacles (run l s)) = List.length (obstacles s)
  /\ List.length (melinjos (run l s)) = List.length (melinjos s).
Proof.
  revert s. induction l as [|i l IH]; intros s.
  - cbn. repeat split; try apply Forall2_same;
      try apply obstacle_evolves_refl; try apply melinjo_evolves_refl.
  - change (run (i :: l) s) with (run l (step i s)).
    destruct (step_evolves i s) as (Ho1 & Hm1).
    destruct (IH (step i s)) as (Ho2 & Hm2 & _).
    assert (Ho : Forall2 obstacle_evolves (obstacles s)
                         (obstacles (run l (step i s)))).
    { apply (Forall2_compose _ obstacle_evolves_trans _ _ _ Ho1 Ho2). }
    assert (Hm : Forall2 melinjo_evolves (melinjos s)
                         (melinjos (run l (step i s)))).
    { apply (Forall2_compose _ melinjo_evolves_trans _ _ _ Hm1 Hm2). }
    split; [exact Ho|]. split; [exact Hm|].
    split; symmetry; eapply Forall2_length; eassumption.
Qed.

(** *** The game clock *)

Lemma frame_updates_lastTimestamp (s : state) :
  lastTimestamp (frame_updates s) = lastTimestamp s.
Proof.
  unfold frame_updates, checkCollisions.
  destruct (checkObstacles _ _) as [obs hit].
  destruct hit.
  - unfold updateEnergy.
    repeat match goal with |- context [if ?c then _ else _] => destruct c end;
      reflexivity.
  - destruct (checkMelinjos _ _ _) as [mels e].
    unfold updateEnergy.
    repeat match goal with |- context [if ?c then _ else _] => destruct c end;
      reflexivity.
Qed.

Lemma gameLoop_clock (ts : Q) (s : state) (g t : Q) :
  gameActive s = true ->
  gameTime s = Fin g -> lastTimestamp s = Fin t ->
  gameTime (fst (gameLoop ts s)) = Fin (g + (ts + - t) / 1000)
  /\ lastTimestamp (fst (gameLoop ts s)) = Fin ts
  /\ (gameActive (fst (gameLoop ts s)) = true ->
      (g + (ts + - t) / 1000 < GAME_DURATION)%Q)
  /\ ((GAME_DURATION <= g + (ts + - t) / 1000)%Q ->
      gameActive (fst (gameLoop ts s)) = false).
Proof.
  intros Ha Hg Ht.
  assert (Eg : gameTime s + deltaTime ts s / 1000
               = Fin (g + (ts + - t) / 1000)).
  { unfold deltaTime. rewrite Hg, Ht. reflexivity. }
  split; [rewrite gameLoop_gameTime, Ha; exact Eg|].
  rewrite gameLoop_state, Ha. split.
  - rewrite frame_updates_lastTimestamp. unfold frame_clock.
    match goal with |- context [if ?c then _ else _] => destruct c end;
      reflexivity.
  - pose proof (frame_clock_gameActive ts s) as Hc. rewrite Eg, Ha in Hc.
    unfold num_geb, num_leb in Hc.
    destruct (Qleb_spec GAME_DURATION (g + (ts + - t) / 1000)) as [Hge|Hlt].
    + split; [|intros _; now apply frame_updates_stays_ended].
      intros Hact. rewrite (frame_updates_stays_ended _ Hc) in Hact.
      discriminate.
    + split; [intros _; lra|intros Hge; exfalso; lra].
Qed.

Lemma reachable_clock_invariant :
  forall s, reachable s -> clock_invariant s.
Proof.
  apply (reachable_invariant clock_invariant).
  - intros fuel rnd s H. apply onload_fields in H.
    destruct H as (_ & _ & Hg & Ht & _).
    exists 0%Q, 0%Q. split; [exact Hg|]. split; [exact Ht|].
    intros _. unfold GAME_DURATION. lra.
  - intros s (g & t & Hg & Ht & H).
    destruct (energy s >=? ENERGY_JUMP_COST) eqn:He.
    + destruct (handleJump_accepted s He)
        as (_ & _ & _ & _ & _ & _ & _ & _ & _ & _ & Eg & Ea & Et & _).
      cbn zeta in *. exists g, t. rewrite Eg, Ea, Et. auto.
    + rewrite (handleJump_rejected s He). exists g, t. auto.
  - intros ts s (g & t & Hg & Ht & H).
    destruct (gameActive s) eqn:Ha.
    + destruct (gameLoop_clock ts s g t Ha Hg Ht) as (Eg & Et & Hlt & _).
      exists (g + (ts + - t) / 1000)%Q, ts.
      split; [exact Eg|]. split; [exact Et|]. exact Hlt.
    + rewrite gameLoop_state, Ha. exists g, ts.
      split; [exact Hg|]. split; [reflexivity|].
      cbn. rewrite Ha. discriminate.
Qed.

(** X11.  In every reachable state the elapsed time and the last timestamp
    are finite, and an active game has an elapsed time below the limit.  A
    frame sets [lastTimestamp] to its timestamp, leaves the elapsed time
    finite, and does not decrease it when its timestamp is not before the
    previous one; the game is still active after the frame only with an
    elapsed time below the limit. *)
Theorem game_clock_never_runs_back (s : state) (ts : Q) :
  reachable s ->
  exists g t g' : Q,
    gameTime s = Fin g /\ lastTimestamp s = Fin t
    /\ (gameActive s = true -> (g < GAME_DURATION)%Q)
    /\ gameTime (fst (gameLoop ts s)) = Fin g'
    /\ lastTimestamp (fst (gameLoop ts s)) = Fin ts
    /\ ((t <= ts)%Q -> (g <= g')%Q)
    /\ (gameActive (fst (gameLoop ts s)) = true -> (g' < GAME_DURATION)%Q).
Proof.
  intros Hr. destruct (reachable_clock_invariant s Hr) as (g & t & Hg & Ht & H).
  destruct (gameActive s) eqn:Ha.
  - destruct (gameLoop_clock ts s g t Ha Hg Ht) as (Eg & El & Hlt & _).
    exists g, t, (g + (ts + - t) / 1000)%Q.
    split; [exact Hg|]. split; [exact Ht|].
    split; [intros _; exact (H eq_refl)|].
    split; [exact Eg|]. split; [exact El|]. split; [|exact Hlt].
    intros Hle.
    assert (E : (g + (ts + - t) / 1000 == g + (ts - t) * (1 # 1000))%Q)
      by field.
    rewrite E. lra.
  - exists g, t, g. rewrite gameLoop_state, Ha.
    cbn [gameTime lastTimestamp gameActive set_lastTimestamp].
    split; [exact Hg|]. split; [exact Ht|]. split; [discriminate|].
    split; [exact Hg|]. split; [reflexivity|]. split; [intros _; lra|].
    rewrite Ha. discriminate.
Qed.

Lemma game_clock_never_runs_back_witness :
  exists s0 : state,
    onload 46 demo_rnd = Some s0
    /\ let s := run (demo_frames 100) s0 in
       exists g g' : Q,
         gameTime s = Fin g
         /\ gameTime (fst (gameLoop 1616 s)) = Fin g'
         /\ lastTimestamp (fst (gameLoop 1616 s)) = Fin 1616
         /\ (g <= g')%Q.
Proof.
  eexists. split; [vm_compute; reflexivity|]. cbv zeta.
  match goal with |- exists g g', gameTime ?s = _ /\ _ =>
    assert (Hr : reachable s) by (apply reachable_demo; vm_compute; reflexivity);
    destruct (game_clock_never_runs_back s 1616 Hr)
      as (g & t & g' & Hg & Ht & _ & Hg' & Hl & Hle & _);
    assert (Et : lastTimestamp s = Fin 1600) by (vm_compute; reflexivity)
  end.
  exists g, g'. split; [exact Hg|]. split; [exact Hg'|]. split; [exact Hl|].
  apply Hle. rewrite Ht in Et. injection Et as ->. lra.
Defined.

(** *** Jump requests in a row *)

Lemma jumps_succ (k : nat) (s : state) :
  jumps (S k) s = handleJump (jumps k s).
Proof. reflexivity. Qed.

Lemma jumps_accepted (k : nat) :
  forall (s : state) (q : Q),
    energy s = Fin q ->
    (ENERGY_JUMP_COST * count_Q k <= q)%Q ->
    (exists q' : Q,
       energy (jumps k s) = Fin q'
       /\ (q' == q - ENERGY_JUMP_COST * count_Q k)%Q)
    /\ ((1 <= k)%nat ->
        isJumping (player (jumps k s)) = true
        /\ jumpCount (player (jumps k s))
           = if isJumping (player s) then (jumpCount (player s) + k)%nat
             else k).
Proof.
  induction k as [|k IH]; intros s q Hq Hle.
  - split; [|lia]. exists q. split; [exact Hq|].
    change (count_Q 0) with 0%Q. ring.
  - rewrite count_Q_succ in Hle.
    pose proof (count_Q_nonneg k) as Hk.
    destruct (IH s q Hq) as ((q1 & E1 & Q1) & Hj); [unfold_consts; lra|].
    rewrite jumps_succ.
    assert (He : (energy (jumps k s) >=? ENERGY_JUMP_COST) = true).
    { rewrite E1. unfold num_geb, num_leb.
      destruct (Qleb_spec ENERGY_JUMP_COST q1) as [_|Hn]; [reflexivity|].
      exfalso. apply Hn. rewrite Q1. lra. }
    destruct (handleJump_accepted _ He) as (Ee & _ & Ej & Ec & _).
    cbn zeta in Ee, Ej, Ec. split.
    + eexists. split; [rewrite Ee, E1; reflexivity|].
      rewrite Q1, count_Q_succ. ring.
    + intros _. split; [exact Ej|]. rewrite Ec.
      destruct k as [|k'].
      * change (jumps 0 s) with s. destruct (isJumping (player s)); lia.
      * destruct Hj as (Hj1 & Hj2); [lia|]. rewrite Hj1, Hj2.
        destruct (isJumping (player s)); lia.
Qed.

Lemma jumps_rejected (n : nat) (s : state) :
  (energy s >=? ENERGY_JUMP_COST) = false -> jumps n s = s.
Proof.
  intros He. induction n as [|n IH]; [reflexivity|].
  rewrite jumps_succ, IH. now apply handleJump_rejected.
Qed.

Lemma jumps_add (m n : nat) (s : state) :
  jumps (m + n) s = jumps m (jumps n s).
Proof.
  induction m as [|m IH]; [reflexivity|].
  cbn [Nat.add]. rewrite !jumps_succ, IH. reflexivity.
Qed.

(** X12.  Jump requests in a row are limited by the energy: from energy
    [q] with [20 k <= q < 20 (k + 1)], exactly [k] requests take effect; the
    energy is then [q - 20 k], below the cost of a jump; for [k >= 1] the
    player is jumping, with jump count [k] (added to the old count when it
    was already jumping); and any further request changes nothing. *)
Theorem energy_limits_jumps_in_a_row (s : state) (q : Q) (k : nat) :
  energy s = Fin q ->
  (ENERGY_JUMP_COST * count_Q k <= q)%Q ->
  (q < ENERGY_JUMP_COST * count_Q (S k))%Q ->
  (exists q' : Q,
     energy (jumps k s) = Fin q'
     /\ (q' == q - ENERGY_JUMP_COST * count_Q k)%Q
     /\ (q' < ENERGY_JUMP_COST)%Q)
  /\ ((1 <= k)%nat ->
      isJumping (player (jumps k s)) = true
      /\ jumpCount (player (jumps k s))
         = if isJumping (player s) then (jumpCount (player s) + k)%nat
           else k)
  /\ (forall n : nat, (k <= n)%nat -> jumps n s = jumps k s).
Proof.
  intros Hq Hle Hlt. rewrite count_Q_succ in Hlt.
  destruct (jumps_accepted k s q Hq Hle) as ((q' & E & Q') & Hj).
  assert (Hlow : (q' < ENERGY_JUMP_COST)%Q) by (rewrite Q'; lra).
  split; [exists q'; auto|]. split; [exact Hj|].
  intros n Hn. replace n with ((n - k) + k)%nat by lia.
  rewrite jumps_add. apply jumps_rejected.
  rewrite E. unfold num_geb, num_leb.
  destruct (Qleb_spec ENERGY_JUMP_COST q') as [Hc|_]; [exfalso; lra|reflexivity].
Qed.

Lemma energy_limits_jumps_in_a_row_witness :
  exists s0 : state,
    onload 46 demo_rnd = Some s0
    /\ (forall n : nat, (5 <= n)%nat -> jumps n s0 = jumps 5 s0)
    /\ jumpCount (player (jumps 5 s0)) = 5%nat.
Proof.
  eexists. split; [vm_compute; reflexivity|].
  match goal with |- (forall n, _ -> jumps n ?s = _) /\ _ =>
    destruct (energy_limits_jumps_in_a_row s 100 5) as (_ & Hj & Hn);
      [vm_compute; reflexivity | vm_compute; discriminate
      | vm_compute; reflexivity |]
  end.
  split; [exact Hn|]. apply Hj. lia.
Defined.

(** *** What is drawn first *)

Lemma drawn_obstacles_none (l : list obstacle) :
  Forall (fun x => exists q : Q, x = Fin q /\ (800 <= q)%Q) (map ox l) ->
  filter (fun o => (ox o + owidth o >? 0) && (ox o <? CANVAS_WIDTH)) l = [].
Proof.
  induction l as [|o l IH]; [reflexivity|].
  cbn [map filter]. intros H. inversion H as [|? ? (q & Hq & H0) Hl]; subst.
  rewrite Hq. unfold CANVAS_WIDTH. cbn [num_ltb].
  destruct (Qltb_spec q 800) as [Hc|_]; [exfalso; lra|].
  rewrite andb_false_r. now apply IH.
Qed.

Lemma drawn_melinjos_none (l : list melinjo) :
  Forall (fun x => exists q : Q, x = Fin q /\ (800 <= q)%Q) (map mx l) ->
  filter (fun m => negb (collected m) && (mx m + mwidth m >? 0)
                   && (mx m <? CANVAS_WIDTH)) l = [].
Proof.
  induction l as [|m l IH]; [reflexivity|].
  cbn [map filter]. intros H. inversion H as [|? ? (q & Hq & H0) Hl]; subst.
  rewrite Hq. unfold CANVAS_WIDTH. cbn [num_ltb].
  destruct (Qltb_spec q 800) as [Hc|_]; [exfalso; lra|].
  rewrite andb_false_r. now apply IH.
Qed.

(** An obstacle that begins at x = 150 or further right is neither hit nor
    behind the player. *)
Lemma far_obstacle (p : Player) (o : obstacle) (x w : Q) :
  px p = Fin 100 -> pwidth p = Fin 50 ->
  ox o = Fin x -> owidth o = Fin w -> (150 <= x)%Q -> (0 <= w)%Q ->
  obstacle_hit p o = false /\ mark_passed p o = o.
Proof.
  intros Hx Hw Ex Ew H150 H0.
  unfold obstacle_hit, mark_passed, obstacle_behind, num_gtb.
  rewrite Hx, Hw, Ex, Ew. cbn [num_add num_ltb].
  destruct (Qltb_spec x (100 + 50)) as [Hc|_]; [exfalso; lra|].
  destruct (Qltb_spec (x + w) 100) as [Hc|_]; [exfalso; lra|].
  rewrite !andb_false_r. cbn [andb]. split; reflexivity.
Qed.

Lemma far_obstacles (p : Player) (l : list obstacle) :
  px p = Fin 100 -> pwidth p = Fin 50 ->
  Forall (fun o => exists x w : Q,
            ox o = Fin x /\ owidth o = Fin w /\ (150 <= x)%Q /\ (0 <= w)%Q) l ->
  existsb (obstacle_hit p) l = false /\ map (mark_passed p) l = l.
Proof.
  intros Hx Hw. induction 1 as [|o l (x & w & Ex & Ew & H150 & H0) Hl IH];
    [split; reflexivity|].
  destruct (far_obstacle p o x w Hx Hw Ex Ew H150 H0) as (Hh & Hm).
  destruct IH as (IH1 & IH2). cbn [existsb map].
  rewrite Hh, Hm, IH1, IH2. split; reflexivity.
Qed.

Lemma scrolled_level_far (l : list obstacle) :
  Forall (fun x => exists q : Q, x = Fin q /\ (800 <= q)%Q /\ (q < 9800)%Q)
         (map ox l) ->
  Forall obstacle_shape l ->
  Forall (fun o => exists x w : Q,
            ox o = Fin x /\ owidth o = Fin w /\ (150 <= x)%Q /\ (0 <= w)%Q)
         (map (fun o => set_ox (ox o - SCROLL_SPEED) o) l).
Proof.
  induction l as [|o l IH]; intros Hx Hs; [constructor|].
  cbn [map] in *. inversion Hx as [|? ? (x & Ex & Hx0 & _) Hxs]; subst.
  inversion Hs as [|? ? (w & h & y & Ew & _ & _ & _ & _ & Hshape) Hl]; subst.
  constructor; [|now apply IH].
  exists (x + - SCROLL_SPEED)%Q, w. cbn [ox owidth set_ox].
  rewrite Ex, Ew. split; [reflexivity|]. split; [reflexivity|].
  unfold_consts. split; [lra|].
  destruct Hshape as [(_ & ? & _)|(_ & ? & _)]; lra.
Qed.

Lemma placed_head (lo hi bound p : Q) (x : num) (l : list num) :
  placed lo hi bound p (x :: l) ->
  x = Fin p /\ exists gap : Q, (lo <= gap)%Q /\ placed lo hi bound (p + gap) l.
Proof. inversion 1; subst. split; [reflexivity|]. eauto. Qed.

Lemma updatePlayer_on_ground (s : state) :
  player s = mkPlayer 100 (CANVAS_HEIGHT - GROUND_HEIGHT - 40) 50 40 0 false 0 ->
  player (updatePlayer s) = player s.
Proof.
  intros H. unfold updatePlayer. rewrite H. reflexivity.
Qed.

(** The first frame after [onload] scrolls the level once and changes
    nothing else of the player and the entities. *)
Lemma first_frame_state (fuel : nat) (rnd : random_source) (s0 : state)
    (ts : Q) :
  draws_in_unit rnd ->
  onload fuel rnd = Some s0 ->
  player (fst (gameLoop ts s0)) = player s0
  /\ obstacles (fst (gameLoop ts s0))
     = map (fun o => set_ox (ox o - SCROLL_SPEED) o) (obstacles s0)
  /\ melinjos (fst (gameLoop ts s0))
     = map (fun m => set_mx (mx m - SCROLL_SPEED) m) (melinjos s0).
Proof.
  intros Hr H. destruct (onload_layout _ _ _ Hr H) as (Po & So & Pm & Sm).
  destruct (onload_fields _ _ _ H) as (_ & Hp & _ & _ & Ha).
  rewrite gameLoop_state, Ha. unfold frame_updates.
  set (s := frame_clock ts s0).
  assert (Hps : player s = player s0) by apply frame_clock_player.
  destruct (frame_clock_entities ts s0) as (Eo & Em). fold s in Eo, Em.
  set (s4 := updateEnergy (updateMelinjos (updateObstacles (updatePlayer s)))).
  destruct (frame_updates_entities s) as (Eo4 & Em4). fold s4 in Eo4, Em4.
  rewrite Eo in Eo4. rewrite Em in Em4.
  assert (Hp4 : player s4 = player s0).
  { unfold s4. rewrite updateEnergy_player. cbn [player updateMelinjos
      updateObstacles set_melinjos set_obstacles].
    rewrite updatePlayer_on_ground; rewrite Hps; [reflexivity|exact Hp]. }
  assert (Hfar : existsb (obstacle_hit (player s4)) (obstacles s4) = false
                 /\ map (mark_passed (player s4)) (obstacles s4) = obstacles s4).
  { apply far_obstacles; [rewrite Hp4, Hp; reflexivity
                         |rewrite Hp4, Hp; reflexivity|].
    rewrite Eo4. apply scrolled_level_far; [|exact So].
    apply placed_finite in Po; [exact Po|lra]. }
  destruct Hfar as (Hno & Hmark).
  assert (Hmel : Forall (fun m => melinjo_hit (player s4) m = false)
                        (melinjos s4)).
  { rewrite Em4, Hp4, Hp. apply Forall_map.
    eapply Forall_impl; [|exact Sm].
    intros m (y & Ey & _ & Hy & Ew & Eh & _).
    unfold melinjo_hit. cbn [px py pwidth pheight my mheight mwidth set_mx mx].
    rewrite Ey, Eh. unfold_consts. cbn [num_add num_sub num_opp num_ltb].
    destruct (Qltb_spec (400 + - (50) + - (40)) (y + 20)) as [Hc|_];
      [exfalso; lra|].
    rewrite andb_false_r. reflexivity. }
  rewrite (proj2 (checkCollisions_cases s4) Hno). cbn zeta.
  rewrite (checkMelinjos_no_hit _ _ _ Hmel), Hmark.
  match goal with |- context [if ?c then _ else _] => destruct c end;
    cbn [player obstacles melinjos set_gameActive set_energy set_melinjos
         set_obstacles]; auto.
Qed.

(** X13.  The first picture of a run is drawn by the first frame after
    [onload], after its updates.  When no jump request comes before that
    frame, then whatever its timestamp, the picture shows exactly one
    obstacle and one pickup, the first of the level, both scrolled once
    from x = 800 to x = 795, and the player as [onload] left it, standing
    on the ground line. *)
Theorem first_picture (fuel : nat) (rnd : random_source) (s0 : state)
    (ts : Q) :
  draws_in_unit rnd ->
  onload fuel rnd = Some s0 ->
  exists (o : obstacle) (m : melinjo),
    hd_error (obstacles s0) = Some o
    /\ hd_error (melinjos s0) = Some m
    /\ ox o = Fin 800 /\ mx m = Fin 800
    /\ pic_obstacles (snd (gameLoop ts s0)) = [set_ox (Fin (800 - 5)) o]
    /\ pic_melinjos (snd (gameLoop ts s0)) = [set_mx (Fin (800 - 5)) m]
    /\ pic_player (snd (gameLoop ts s0)) = player s0
    /\ py (player s0) = Fin (400 - 50 - 40)
    /\ isJumping (player s0) = false.
Proof.
  intros Hr H. destruct (first_frame_state fuel rnd s0 ts Hr H) as (Ep & Eo & Em).
  destruct (onload_layout _ _ _ Hr H) as (Po & So & Pm & Sm).
  destruct (onload_fields _ _ _ H) as (_ & Hp & _ & _ & _).
  rewrite gameLoop_picture. unfold render, drawObstacles, drawMelinjos.
  cbn [pic_obstacles pic_melinjos pic_player]. rewrite Ep, Eo, Em.
  destruct (obstacles s0) as [|o lo];
    [inversion Po; exfalso; lra|].
  destruct (melinjos s0) as [|m lm];
    [inversion Pm; exfalso; lra|].
  exists o, m. cbn [hd_error map] in *.
  destruct (placed_head _ _ _ _ _ _ Po) as (Ex & gap & Hg0 & Pl).
  destruct (placed_head _ _ _ _ _ _ Pm) as (Ex' & gap' & Hg0' & Pl').
  apply Forall_inv in So, Sm.
  destruct So as (w & h & y & Ew & _ & _ & _ & _ & Hshape).
  destruct Sm as (y' & _ & _ & _ & Ew' & _ & Ec).
  do 2 (split; [reflexivity|]). split; [exact Ex|]. split; [exact Ex'|].
  split; [|split; [|split; [reflexivity|]]].
  - cbn [filter]. cbn [ox owidth set_ox]. rewrite Ex, Ew.
    unfold_consts. cbn [num_add num_sub num_opp num_ltb num_gtb].
    destruct (Qltb_spec 0 (800 + - (5) + w)) as [_|Hc];
      [|exfalso; apply Hc;
        destruct Hshape as [(_ & ? & _)|(_ & ? & _)]; lra].
    destruct (Qltb_spec (800 + - (5)) 800) as [_|Hc]; [|exfalso; lra].
    cbn [andb]. f_equal.
    apply (drawn_obstacles_none
             (map (fun o0 => set_ox (ox o0 - 5) o0) lo)).
    rewrite map_map. cbn [ox set_ox].
    apply placed_finite in Pl; [|lra].
    rewrite <- (map_map ox (fun x => x - 5)).
    apply Forall_map. eapply Forall_impl; [|exact Pl].
    intros x (q & -> & Hq & _). eexists. split; [reflexivity|]. lra.
  - cbn [filter]. cbn [mx mwidth collected set_mx]. rewrite Ex', Ew', Ec.
    unfold_consts. cbn [num_add num_sub num_opp num_ltb num_gtb negb].
    destruct (Qltb_spec 0 (800 + - (5) + 20)) as [_|Hc]; [|exfalso; lra].
    destruct (Qltb_spec (800 + - (5)) 800) as [_|Hc]; [|exfalso; lra].
    cbn [andb]. f_equal.
    apply (drawn_melinjos_none
             (map (fun m0 => set_mx (mx m0 - 5) m0) lm)).
    rewrite map_map. cbn [mx set_mx].
    apply placed_finite in Pl'; [|lra].
    rewrite <- (map_map mx (fun x => x - 5)).
    apply Forall_map. eapply Forall_impl; [|exact Pl'].
    intros x (q & -> & Hq & _). eexists. split; [reflexivity|]. lra.
  - rewrite Hp. split; reflexivity.
Qed.

Lemma first_picture_witness :
  exists s0 : state,
    onload 46 demo_rnd = Some s0
    /\ List.length (pic_obstacles (snd (gameLoop 16 s0))) = 1%nat
    /\ List.length (pic_melinjos (snd (gameLoop 16 s0))) = 1%nat.
Proof.
  eexists. split; [vm_compute; reflexivity|].
  match goal with
  | |- List.length (pic_obstacles (snd (gameLoop ?ts ?s))) = _ /\ _ =>
      destruct (first_picture 46 demo_rnd s ts demo_rnd_in_unit)
        as (o & m & _ & _ & _ & _ & Eo & Em & _); [vm_compute; reflexivity|]
  end.
  rewrite Eo, Em. split; reflexivity.
Defined.

(** *** No NaN, no infinity *)

(** X14.  No number of a reachable state is NaN or infinite: the player's
    box and velocity, the energy, the clock, and the box of every obstacle
    and pickup are finite. *)
Theorem state_numbers_are_finite (s : state) :
  reachable s ->
  is_finite (px (player s)) /\ is_finite (py (player s))
  /\ is_finite (pwidth (player s)) /\ is_finite (pheight (player s))
  /\ is_finite (velocityY (player s))
  /\ is_finite (energy s) /\ is_finite (gameTime s)
  /\ is_finite (lastTimestamp s)
  /\ Forall (fun o => is_finite (ox o) /\ is_finite (oy o)
                      /\ is_finite (owidth o) /\ is_finite (oheight o))
            (obstacles s)
  /\ Forall (fun m => is_finite (mx m) /\ is_finite (my m)
                      /\ is_finite (mwidth m) /\ is_finite (mheight m))
            (melinjos s).
Proof.
  intros H.
  destruct (reachable_world_invariant s H)
    as ((Hx & Hw & Hh & (y & Hy & _) & (v & Hv) & _) & Ho & Hm & _).
  destruct (reachable_energy s H) as (e & He & _).
  destruct (reachable_clock_invariant s H) as (g & t & Hg & Ht & _).
  unfold is_finite. rewrite Hx, Hw, Hh, Hy, Hv, He, Hg, Ht.
  repeat (split; [eexists; reflexivity|]). split.
  - eapply Forall_impl; [|exact Ho].
    intros o (x & w & y' & h & -> & -> & -> & -> & _). eauto 10.
  - eapply Forall_impl; [|exact Hm].
    intros m (x & y' & -> & -> & _ & _ & -> & ->). eauto 10.
Qed.

Lemma state_numbers_are_finite_witness :
  exists s0 : state,
    onload 46 demo_rnd = Some s0
    /\ is_finite (velocityY (player (run (demo_jump_run 5) s0))).
Proof.
  eexists. split; [vm_compute; reflexivity|].
  match goal with |- is_finite (velocityY (player ?s)) =>
    destruct (state_numbers_are_finite s) as (_ & _ & _ & _ & Hv & _);
      [apply reachable_demo; vm_compute; reflexivity | exact Hv]
  end.
Defined.

End RunFacts.

Module PageFacts.
Import GameJs Page EnergyFacts JumpFacts FrameFacts.

(** *** The restart listeners *)

Lemma handleJump_gameActive (s : state) :
  gameActive (handleJump s) = gameActive s.
Proof.
  unfold handleJump.
  repeat match goal with |- context [if ?c then _ else _] => destruct c end;
    reflexivity.
Qed.

Lemma page_step_invariant (i : page_input) (pg : page) :
  page_invariant pg -> page_invariant (fst (page_step i pg)).
Proof.
  intros (Hf & Hn). unfold page_invariant.
  destruct i as [code|t rect| |ts]; cbn [page_step fst game
    restartListenerAdded restartListeners].
  - destruct code; unfold onKeyDown;
      [destruct (gameActive (game pg)) eqn:Ha|]; rewrite ?handleJump_gameActive,
      ?Ha; auto.
  - unfold onCanvasTouch. destruct (gameActive (game pg)) eqn:Ha;
      rewrite ?handleJump_gameActive, ?Ha; auto.
  - unfold onButtonTouch. destruct (gameActive (game pg)) eqn:Ha;
      rewrite ?handleJump_gameActive, ?Ha; auto.
  - unfold page_gameLoop. cbn zeta.
    assert (Hstay : gameActive (game pg) = false ->
                    gameActive (fst (gameLoop ts (game pg))) = false).
    { intros Ha. rewrite gameLoop_state, Ha. exact Ha. }
    destruct (gameActive (fst (gameLoop ts (game pg)))) eqn:Ha'; cbn [negb].
    + cbn [game restartListenerAdded restartListeners]. rewrite Ha'.
      destruct (gameActive (game pg)); [auto|].
      specialize (Hstay eq_refl). discriminate.
    + unfold drawGameOver_listeners.
      cbn [game restartListenerAdded restartListeners].
      rewrite Hf, Hn.
      destruct (gameActive (game pg));
        cbn [negb game restartListenerAdded restartListeners];
        rewrite Ha'; auto.
Qed.

Lemma page_gameLoop_game (ts : Q) (pg : page) :
  game (page_gameLoop ts pg) = fst (gameLoop ts (game pg)).
Proof.
  unfold page_gameLoop, drawGameOver_listeners. cbn zeta.
  repeat match goal with |- context [if ?c then _ else _] => destruct c end;
    reflexivity.
Qed.

Lemma page_reachable_invariant :
  forall pg, page_reachable pg -> page_invariant pg.
Proof.
  intros pg H. induction H as [fuel rnd pg Hr H|i pg H IH Hn].
  - unfold onload_page in H.
    destruct (onload fuel rnd) as [s|] eqn:E; [|discriminate].
    injection H as <-. apply onload_fields in E.
    destruct E as (_ & _ & _ & _ & Ha).
    unfold page_invariant. cbn. rewrite Ha. auto.
  - now apply page_step_invariant.
Qed.

(** X17.  In every reachable page the restart listeners are registered
    exactly once when the game is over and not at all while it is active,
    although [drawGameOver] runs on every frame after the end.  So the space
    key reloads once when the game is over and never while it is active; no
    event reloads more than once; an event that reloads finds the game over
    and changes nothing of it. *)
Theorem restart_listeners_registered_once (pg : page) :
  page_reachable pg ->
  restartListeners pg = (if gameActive (game pg) then 0%nat else 1%nat)
  /\ snd (page_step (PageKeyDown Space) pg)
     = (if gameActive (game pg) then 0%nat else 1%nat)
  /\ (forall i : page_input,
        (snd (page_step i pg) <= 1)%nat
        /\ (snd (page_step i pg) = 1%nat ->
            gameActive (game pg) = false
            /\ game (fst (page_step i pg)) = game pg))
  /\ (forall ts : Q,
        restartListeners (page_gameLoop ts pg)
        = if gameActive (fst (gameLoop ts (game pg))) then 0%nat else 1%nat).
Proof.
  intros H. pose proof (page_reachable_invariant pg H) as (Hf & Hn).
  split; [exact Hn|]. split; [|split].
  - cbn [page_step snd game restartListeners]. unfold onKeyDown.
    destruct (gameActive (game pg)) eqn:Ha;
      rewrite ?handleJump_gameActive, ?Ha; cbn [negb]; [reflexivity|exact Hn].
  - intros i. destruct i as [code|t rect| |ts];
      cbn [page_step fst snd game restartListeners].
    + destruct code; [|split; [lia|discriminate]].
      unfold onKeyDown. destruct (gameActive (game pg)) eqn:Ha;
        rewrite ?handleJump_gameActive, ?Ha; cbn [negb].
      * split; [lia|discriminate].
      * rewrite Hn. split; [lia|auto].
    + unfold onCanvasTouch. destruct (gameActive (game pg)) eqn:Ha;
        rewrite ?handleJump_gameActive, ?Ha.
      * cbn [restartTouch negb]. split; [lia|discriminate].
      * rewrite Hn. destruct (restartTouch false t rect);
          split; try lia; auto; discriminate.
    + split; [lia|discriminate].
    + split; [lia|discriminate].
  - intros ts.
    destruct (page_step_invariant (PageFrame ts) pg (conj Hf Hn)) as (_ & Hn').
    cbn [page_step fst] in Hn'. rewrite page_gameLoop_game in Hn'.
    exact Hn'.
Qed.

Lemma restart_listeners_registered_once_witness :
  exists pg0 : page,
    onload_page 46 demo_rnd = Some pg0
    /\ restartListeners
         (page_gameLoop 30032 (page_gameLoop 30016 (page_gameLoop 30000 pg0)))
       = 1%nat
    /\ snd (page_step (PageKeyDown Space) pg0) = 0%nat.
Proof.
  eexists. split; [vm_compute; reflexivity|]. split.
  - vm_compute; reflexivity.
  - match goal with |- snd (page_step _ ?pg) = _ =>
      destruct (restart_listeners_registered_once pg) as (_ & Hk & _);
        [apply (page_reachable_onload 46 demo_rnd);
           [exact demo_rnd_in_unit | vm_compute; reflexivity]
        | rewrite Hk; reflexivity]
    end.
Defined.

End PageFacts.
